(** * The OpenSea REST client ([src/lib/api.ts]): a shallow embedding

    The client is a thin layer over three platform services: the JavaScript
    value universe (objects, spread, truthiness, [JSON.parse] and
    [JSON.stringify]), the [fetch] function, and the [query-string]
    package.  The first part of this file models the JavaScript fragment the
    client relies on, the second part is the client itself, method by method,
    and the last part states and proves the properties of the client.

    Modelling conventions.
    - JavaScript strings are Rocq [string]s: the UTF-8 bytes of the text.
      Lengths and [substr] count UTF-16 code units, as JavaScript does;
      indexing into a string and spreading one go byte by byte, which is
      exact for ASCII text.
    - JavaScript numbers are exact decimals ([number]).  Integers are held
      and printed as doubles hold and print them: [JSON.parse] and the
      arithmetic of the client round to 53 significant bits, and an integer
      prints as the shortest decimal that reads back as it.  Decimal
      fractions are kept as written (exact up to 15 significant digits),
      and there is no infinity.  Page numbers, page sizes, array lengths and
      status codes are integer-valued doubles, given as [Z].
    - [async]/[await] is sequential composition; a rejected promise is a
      thrown exception.
    - Request options are plain objects whose members are values of this
      universe: headers may come as a plain object or as a list of pairs (a
      [Headers] instance is not a value of the universe; like a list of
      pairs it has no own property named after a header).  The exceptions
      of the platform carry the messages V8 gives them.
    - The normalizers of [./utils] are parameters of the client. *)

From Stdlib Require Import ZArith List String Ascii Bool Lia DecimalString.
Import ListNotations.
Local Open Scope string_scope.
Local Open Scope Z_scope.
Set Warnings "-register-all".

(* ===================================================================== *)
(** * Strings *)
(* ===================================================================== *)

(** The double-quote character and the one-character string holding it. *)
Definition dquote_char : ascii := "034"%char.
Definition dquote : string := String dquote_char "".

Definition is_digit (c : ascii) : bool :=
  let n := N_of_ascii c in (48 <=? n)%N && (n <=? 57)%N.

Definition digit_val (c : ascii) : N := (N_of_ascii c - 48)%N.

(** Decimal rendering of an integer, as [String(n)] does for an integer. *)
Definition string_of_Z (z : Z) : string := NilZero.string_of_int (Z.to_int z).

Fixpoint is_prefix (p s : string) : bool :=
  match p, s with
  | EmptyString, _ => true
  | String a p', String b s' => Ascii.eqb a b && is_prefix p' s'
  | String _ _, EmptyString => false
  end.

(** [contains needle hay]: [hay.includes(needle)]. *)
Fixpoint contains (needle hay : string) : bool :=
  is_prefix needle hay
  || match hay with
     | EmptyString => false
     | String _ hay' => contains needle hay'
     end.

(** The same as a proposition: [needle] occurs somewhere inside [hay]. *)
Definition Embeds (needle hay : string) : Prop :=
  exists pre post, hay = pre ++ needle ++ post.

(** The first [n] bytes of a string. *)
Fixpoint take (n : nat) (s : string) : string :=
  match n, s with
  | S n', String c s' => String c (take n' s')
  | _, _ => EmptyString
  end.

(** JavaScript measures a string in UTF-16 code units.  Among the UTF-8
    bytes of a string a lead byte announces its character: one code unit,
    or two (a surrogate pair) when it opens a four-byte sequence; a
    continuation byte adds nothing. *)
Definition code_units (c : ascii) : nat :=
  let n := N_of_ascii c in
  if (128 <=? n)%N && (n <? 192)%N then 0%nat
  else if (240 <=? n)%N then 2%nat
  else 1%nat.

(** [s.length] *)
Fixpoint utf16_length (s : string) : nat :=
  match s with
  | EmptyString => 0%nat
  | String c s' => (code_units c + utf16_length s')%nat
  end.

(** The high surrogate of the character a four-byte sequence encodes, from
    its first three bytes, as the three bytes of that lone code unit. *)
Definition high_surrogate (c b1 b2 : ascii) : string :=
  let h := ((N_of_ascii c mod 8) * 256 + (N_of_ascii b1 mod 64) * 4
            + (N_of_ascii b2 mod 64) / 16 - 64)%N in
  String (ascii_of_N 237)
    (String (ascii_of_N (160 + (h / 64) mod 16))
       (String (ascii_of_N (128 + h mod 64)) "")).

(** [s.substr(0, n)]: the first [n] code units.  A cut between the two
    units of a surrogate pair keeps the high surrogate. *)
Fixpoint substr (n : nat) (s : string) : string :=
  match s with
  | EmptyString => ""
  | String c s' =>
      if (code_units c <=? n)%nat
      then String c (substr (n - code_units c) s')
      else match n, s' with
           | 1%nat, String b1 (String b2 _) => high_surrogate c b1 b2
           | _, _ => ""
           end
  end.

(** A text without four-byte sequences: every character is one code
    unit. *)
Fixpoint single_units (s : string) : bool :=
  match s with
  | EmptyString => true
  | String c s' => (code_units c <=? 1)%nat && single_units s'
  end.

(** [parts.join(sep)] for a list of strings. *)
Fixpoint join_strings (sep : string) (parts : list string) : string :=
  match parts with
  | [] => ""
  | [p] => p
  | p :: rest => p ++ sep ++ join_strings sep rest
  end.

Definition repeat_string (n : nat) (s : string) : string :=
  String.concat "" (List.repeat s n).

(* ===================================================================== *)
(** * JavaScript values *)
(* ===================================================================== *)

(** A number is an exact decimal: an integer, or [m / 10^d] with [d >= 1]
    and [m] not a multiple of ten. *)
Inductive number : Type :=
| NInt (z : Z)
| NFrac (m : Z) (d : positive).

(** The integer-valued double nearest to an integer: 53 significant bits
    are kept, and a tie goes to the even significand.  (Every integer up to
    [2^53] in magnitude is a double; the overflow to [Infinity], beyond
    [2^1024], is out of reach of this model.) *)
Definition round_to_double (z : Z) : Z :=
  let a := Z.abs z in
  if a <? 2 ^ 53 then z
  else
    let e := Z.log2 a - 52 in
    let q := a / 2 ^ e in
    let r := a mod 2 ^ e in
    let half := 2 ^ (e - 1) in
    let q' := if (half <? r) || ((r =? half) && Z.odd q) then q + 1 else q in
    Z.sgn z * (q' * 2 ^ e).

(** [a - b] and [a * b] on integer-valued doubles: the exact result,
    rounded. *)
Definition number_minus (a b : Z) : Z := round_to_double (a - b).
Definition number_times (a b : Z) : Z := round_to_double (a * b).


Inductive value : Type :=
| VUndefined
| VNull
| VBool (b : bool)
| VNum (n : number)
| VStr (s : string)
| VArr (elems : list value)
| VObj (props : list (string * value)).

(** The own properties of a plain object, in creation order. *)
Definition obj : Type := list (string * value).

Definition VInt (z : Z) : value := VNum (NInt z).

(** Exceptions: the [Error] the client raises itself, and the built-in
    errors the platform raises on its behalf. *)
Inductive exn : Type :=
| Error (message : string)
| TypeError (message : string)
| SyntaxError (message : string).

Inductive outcome (A : Type) : Type :=
| Return (a : A)
| Throw (e : exn).
Arguments Return {A} a.
Arguments Throw {A} e.

Definition obind {A B} (o : outcome A) (k : A -> outcome B) : outcome B :=
  match o with
  | Return a => k a
  | Throw e => Throw e
  end.

(** [l.map(f)] where [f] may throw: stops at the first exception. *)
Fixpoint map_outcome {A B} (f : A -> outcome B) (l : list A) : outcome (list B) :=
  match l with
  | [] => Return []
  | x :: rest =>
      obind (f x) (fun y =>
      obind (map_outcome f rest) (fun ys => Return (y :: ys)))
  end.

(** ** Truthiness ([ToBoolean]) *)

Definition number_is_zero (n : number) : bool :=
  match n with
  | NInt z => z =? 0
  | NFrac m _ => m =? 0
  end.

Definition truthy (v : value) : bool :=
  match v with
  | VUndefined | VNull => false
  | VBool b => b
  | VNum n => negb (number_is_zero n)
  | VStr s => negb (s =? "")%string
  | VArr _ | VObj _ => true
  end.

(** [a || b] on values. *)
Definition js_or (a b : value) : value := if truthy a then a else b.

(** ** Plain objects *)

(** [o[k]] on the property list: the last binding of [k] wins. *)
Fixpoint obj_get (k : string) (o : obj) : option value :=
  match o with
  | [] => None
  | (k', v) :: rest =>
      match obj_get k rest with
      | Some w => Some w
      | None => if (k =? k')%string then Some v else None
      end
  end.

Definition obj_has (k : string) (o : obj) : bool :=
  match obj_get k o with Some _ => true | None => false end.

(** [o[k] = v]: an existing property keeps its place, a new one is added
    last. *)
Definition has_key (k : string) (kv : string * value) : bool :=
  (fst kv =? k)%string.

Definition obj_set (k : string) (v : value) (o : obj) : obj :=
  if obj_has k o
  then map (fun kv => if has_key k kv then (fst kv, v) else kv) o
  else (o ++ [(k, v)])%list.

(** A property key is an array index when it is the canonical decimal form
    of an integer below [2^32 - 1]. *)
Fixpoint all_digits (s : string) : bool :=
  match s with
  | EmptyString => true
  | String c s' => is_digit c && all_digits s'
  end.

Fixpoint digits_to_N (acc : N) (s : string) : N :=
  match s with
  | EmptyString => acc
  | String c s' => digits_to_N (acc * 10 + digit_val c)%N s'
  end.

Definition array_index (k : string) : option N :=
  match k with
  | EmptyString => None
  | String c rest =>
      if all_digits k && (negb (Ascii.eqb c "0") || (rest =? "")%string)
      then let n := digits_to_N 0 k in
           if (n <? 4294967295)%N then Some n else None
      else None
  end.

Section Enumeration.
Context {A : Type}.

Fixpoint insert_index (n : N) (kv : string * A)
    (l : list (N * (string * A))) : list (N * (string * A)) :=
  match l with
  | [] => [(n, kv)]
  | (m, kv') :: rest =>
      if (n <=? m)%N then (n, kv) :: l else (m, kv') :: insert_index n kv rest
  end.

Fixpoint index_props (o : list (string * A)) : list (N * (string * A)) :=
  match o with
  | [] => []
  | kv :: rest =>
      match array_index (fst kv) with
      | Some n => insert_index n kv (index_props rest)
      | None => index_props rest
      end
  end.

Definition named_props (o : list (string * A)) : list (string * A) :=
  filter (fun kv => match array_index (fst kv) with
                    | Some _ => false
                    | None => true
                    end) o.

(** The own enumerable properties in enumeration order: array indices in
    ascending order first, then the other keys in creation order. *)
Definition own_props (o : list (string * A)) : list (string * A) :=
  (map snd (index_props o) ++ named_props o)%list.
End Enumeration.

(** The properties [{...v}] copies from [v]. *)
Fixpoint indexed_from {A} (f : A -> value) (i : Z) (l : list A) : obj :=
  match l with
  | [] => []
  | x :: rest => (string_of_Z i, f x) :: indexed_from f (i + 1) rest
  end.

Definition chars_of (s : string) : list ascii := list_ascii_of_string s.

Definition spread_props (v : value) : obj :=
  match v with
  | VObj o => own_props o
  | VArr l => indexed_from (fun x => x) 0 l
  | VStr s => indexed_from (fun c => VStr (String c "")) 0 (chars_of s)
  | _ => []
  end.

(** [{...target, ...source}] continued: the properties [src] are assigned
    one after the other onto [target]. *)
Definition assign (target : obj) (src : obj) : obj :=
  fold_left (fun acc kv => obj_set (fst kv) (snd kv) acc) src target.

(** The object literal [{ ...a }]. *)
Definition spread (v : value) : obj := assign [] (spread_props v).

(** ** Property access *)

Definition nth_value (i : nat) (l : list value) : value := nth i l VUndefined.

Definition nth_char (i : nat) (s : string) : value :=
  match String.get i s with
  | Some c => VStr (String c "")
  | None => VUndefined
  end.

(** [v[k]] and [v.k] for the property names the client reads.  Reading a
    property of [undefined] or [null] throws; arrays and strings answer
    [length] and their indices; methods such as [map] and [join] are not
    values of this universe and are handled where they are called. *)
Definition get_prop (v : value) (k : string) : outcome value :=
  match v with
  | VUndefined =>
      Throw (TypeError ("Cannot read properties of undefined (reading '" ++ k ++ "')"))
  | VNull =>
      Throw (TypeError ("Cannot read properties of null (reading '" ++ k ++ "')"))
  | VObj o => Return (match obj_get k o with Some w => w | None => VUndefined end)
  | VArr l =>
      if (k =? "length")%string then Return (VInt (Z.of_nat (List.length l)))
      else match array_index k with
           | Some n => Return (nth_value (N.to_nat n) l)
           | None => Return VUndefined
           end
  | VStr s =>
      if (k =? "length")%string then Return (VInt (Z.of_nat (utf16_length s)))
      else match array_index k with
           | Some n => Return (nth_char (N.to_nat n) s)
           | None => Return VUndefined
           end
  | VBool _ | VNum _ => Return VUndefined
  end.

(** ** [ToString] *)

Fixpoint strip_zeros_rev (l : list ascii) : list ascii :=
  match l with
  | c :: rest => if Ascii.eqb c "0" then strip_zeros_rev rest else l
  | [] => []
  end.

(** The significant digits of a digit string: trailing zeros removed. *)
Definition significant (ds : string) : string :=
  string_of_list_ascii (rev (strip_zeros_rev (rev (list_ascii_of_string ds)))).

Definition drop (n : nat) (s : string) : string :=
  String.substring n (String.length s - n) s.

(** Scientific notation [d.ddde+x] of the digit string [ds] whose decimal
    point stands after [n] digits. *)
Definition exponential (ds : string) (n : Z) : string :=
  let e := n - 1 in
  let tail := drop 1 ds in
  take 1 ds ++ (if (tail =? "")%string then "" else "." ++ tail)
  ++ "e" ++ (if 0 <=? e then "+" else "-") ++ string_of_Z (Z.abs e).

(** The decimal JavaScript prints for the integer-valued double [a]: the
    shortest one, filled up with zeros, that reads back as [a], and of two
    of the same length the one closer to [a].  The search tries [k]
    significant digits of the [n] digits of [a], [k] going up from 1. *)
Fixpoint shortest_decimal (fuel : nat) (k n a : Z) : Z :=
  match fuel with
  | O => a
  | S f =>
      let scale := 10 ^ (n - k) in
      let lo := a / scale * scale in
      let hi := lo + scale in
      let lo_ok := round_to_double lo =? a in
      let hi_ok := round_to_double hi =? a in
      if lo_ok && hi_ok then
        if a - lo <? hi - a then lo
        else if hi - a <? a - lo then hi
        else if Z.even (lo / scale) then lo else hi
      else if lo_ok then lo
      else if hi_ok then hi
      else shortest_decimal f (k + 1) n a
  end.

Definition printed_integer (a : Z) : Z :=
  let n := Z.of_nat (String.length (string_of_Z a)) in
  shortest_decimal (Z.to_nat n) 1 n a.

(** [Number.prototype.toString] on an exact decimal. *)
Definition number_to_string (x : number) : string :=
  match x with
  | NInt z =>
      let ds := string_of_Z (printed_integer (Z.abs z)) in
      let n := Z.of_nat (String.length ds) in
      (if z <? 0 then "-" else "")
      ++ (if n <=? 21 then ds else exponential (significant ds) n)
  | NFrac m d =>
      let ds := string_of_Z (Z.abs m) in
      let n := Z.of_nat (String.length ds) - Z.pos d in
      (if m <? 0 then "-" else "")
      ++ (if 21 <? n then exponential ds n
          else if 0 <? n then take (Z.to_nat n) ds ++ "." ++ drop (Z.to_nat n) ds
          else if -6 <? n then "0." ++ repeat_string (Z.to_nat (- n)) "0" ++ ds
          else exponential ds n)
  end.

(** [String(v)].  An array prints as its elements joined by commas.  A
    plain object prints as [[object Object]] through the [toString] it
    inherits; an own [toString] member hides that method, and as no value of
    this universe can be called, the conversion then raises a [TypeError]
    (the inherited [valueOf] returns the object itself). *)
Fixpoint to_string (v : value) : outcome string :=
  match v with
  | VUndefined => Return "undefined"
  | VNull => Return "null"
  | VBool true => Return "true"
  | VBool false => Return "false"
  | VNum n => Return (number_to_string n)
  | VStr s => Return s
  | VArr l =>
      obind
        ((fix elements (l : list value) : outcome (list string) :=
            match l with
            | [] => Return []
            | x :: rest =>
                obind (match x with
                       | VUndefined | VNull => Return ""
                       | _ => to_string x
                       end) (fun t =>
                obind (elements rest) (fun ts => Return (t :: ts)))
            end) l)
        (fun parts => Return (join_strings "," parts))
  | VObj o =>
      if obj_has "toString" o
      then Throw (TypeError "Cannot convert object to primitive value")
      else Return "[object Object]"
  end.

(** The element conversion of [Array.prototype.join]: [undefined] and
    [null] elements print as the empty string. *)
Definition join_element (v : value) : outcome string :=
  match v with
  | VUndefined | VNull => Return ""
  | _ => to_string v
  end.

(** [l.join(sep)]: the elements are converted from left to right, and the
    first that cannot be converted raises. *)
Definition array_join (sep : string) (l : list value) : outcome string :=
  obind (map_outcome join_element l)
    (fun parts => Return (join_strings sep parts)).

(* ===================================================================== *)
(** * [JSON.stringify] and [JSON.parse] *)
(* ===================================================================== *)

Module JSON.

Definition bslash_char : ascii := "092"%char.
Definition bslash : string := String bslash_char "".

Definition hex_digit (n : N) : ascii :=
  if (n <? 10)%N then ascii_of_N (48 + n)%N else ascii_of_N (87 + n)%N.

(** One character of a string literal as [JSON.stringify] writes it. *)
Definition escape_char (c : ascii) : string :=
  let n := N_of_ascii c in
  if Ascii.eqb c dquote_char then bslash ++ dquote
  else if Ascii.eqb c bslash_char then bslash ++ bslash
  else if (n =? 8)%N then bslash ++ "b"
  else if (n =? 12)%N then bslash ++ "f"
  else if (n =? 10)%N then bslash ++ "n"
  else if (n =? 13)%N then bslash ++ "r"
  else if (n =? 9)%N then bslash ++ "t"
  else if (n <? 32)%N
       then bslash ++ "u00"
            ++ String (hex_digit (n / 16)%N) (String (hex_digit (n mod 16)%N) "")
  else String c "".

Fixpoint escape (s : string) : string :=
  match s with
  | EmptyString => ""
  | String c s' => escape_char c ++ escape s'
  end.

Definition quote (s : string) : string := dquote ++ escape s ++ dquote.

(** The members of an object: a property whose value has no JSON text
    ([undefined]) is left out. *)
Fixpoint members (ps : list (string * option string)) : list string :=
  match ps with
  | [] => []
  | (k, Some t) :: rest => (quote k ++ ":" ++ t) :: members rest
  | (_, None) :: rest => members rest
  end.

(** [JSON.stringify(v)]; [None] is the result [undefined]. *)
Fixpoint stringify (v : value) : option string :=
  match v with
  | VUndefined => None
  | VNull => Some "null"
  | VBool true => Some "true"
  | VBool false => Some "false"
  | VNum n => Some (number_to_string n)
  | VStr s => Some (quote s)
  | VArr l =>
      Some ("[" ++ join_strings ","
                     (map (fun x => match stringify x with
                                    | Some t => t
                                    | None => "null"
                                    end) l)
            ++ "]")
  | VObj o =>
      Some ("{" ++ join_strings ","
                     (members (own_props
                        (map (fun kv => (fst kv, stringify (snd kv))) o)))
            ++ "}")
  end.

(** ** Lexical layer *)

Definition is_ws (c : ascii) : bool :=
  let n := N_of_ascii c in
  (n =? 32)%N || (n =? 9)%N || (n =? 10)%N || (n =? 13)%N.

Fixpoint skip_ws (s : string) : string :=
  match s with
  | String c rest => if is_ws c then skip_ws rest else s
  | EmptyString => s
  end.

Definition hex_val (c : ascii) : option N :=
  let n := N_of_ascii c in
  if (48 <=? n)%N && (n <=? 57)%N then Some (n - 48)%N
  else if (97 <=? n)%N && (n <=? 102)%N then Some (n - 87)%N
  else if (65 <=? n)%N && (n <=? 70)%N then Some (n - 55)%N
  else None.

Definition hex4 (a b c d : ascii) : option N :=
  match hex_val a, hex_val b, hex_val c, hex_val d with
  | Some x, Some y, Some z, Some w => Some (((x * 16 + y) * 16 + z) * 16 + w)%N
  | _, _, _, _ => None
  end.

(** A string literal is read as raw bytes and escaped UTF-16 code units. *)
Inductive piece : Type :=
| Byte (c : ascii)
| Unit (u : N).

Definition simple_escape (c : ascii) : option ascii :=
  if Ascii.eqb c dquote_char then Some dquote_char
  else if Ascii.eqb c bslash_char then Some bslash_char
  else if Ascii.eqb c "/" then Some "/"%char
  else if Ascii.eqb c "b" then Some "008"%char
  else if Ascii.eqb c "f" then Some "012"%char
  else if Ascii.eqb c "n" then Some "010"%char
  else if Ascii.eqb c "r" then Some "013"%char
  else if Ascii.eqb c "t" then Some "009"%char
  else None.

(** The text after an opening quote, up to the closing one. *)
Fixpoint lex_string (s : string) : option (list piece * string) :=
  match s with
  | EmptyString => None
  | String c rest =>
      if Ascii.eqb c dquote_char then Some ([], rest)
      else if Ascii.eqb c bslash_char then
        match rest with
        | String e rest1 =>
            if Ascii.eqb e "u" then
              match rest1 with
              | String h1 (String h2 (String h3 (String h4 rest2))) =>
                  match hex4 h1 h2 h3 h4, lex_string rest2 with
                  | Some u, Some (ps, r) => Some (Unit u :: ps, r)
                  | _, _ => None
                  end
              | _ => None
              end
            else
              match simple_escape e, lex_string rest1 with
              | Some b, Some (ps, r) => Some (Byte b :: ps, r)
              | _, _ => None
              end
        | EmptyString => None
        end
      else if (N_of_ascii c <? 32)%N then None
      else match lex_string rest with
           | Some (ps, r) => Some (Byte c :: ps, r)
           | None => None
           end
  end.

(** UTF-8 encoding of a code point. *)
Definition utf8 (cp : N) : string :=
  let b (n : N) := ascii_of_N n in
  let low (n : N) := ascii_of_N (128 + n mod 64) in
  if (cp <? 128)%N then String (b cp) ""
  else if (cp <? 2048)%N then
    String (b (192 + cp / 64)%N) (String (low cp) "")
  else if (cp <? 65536)%N then
    String (b (224 + cp / 4096)%N)
      (String (low (cp / 64)%N) (String (low cp) ""))
  else
    String (b (240 + cp / 262144)%N)
      (String (low (cp / 4096)%N)
         (String (low (cp / 64)%N) (String (low cp) ""))).

Definition is_high (u : N) : bool := (55296 <=? u)%N && (u <=? 56319)%N.
Definition is_low (u : N) : bool := (56320 <=? u)%N && (u <=? 57343)%N.

(** A high surrogate followed by a low one is a single code point. *)
Fixpoint decode_pieces (l : list piece) : string :=
  match l with
  | [] => ""
  | Byte c :: rest => String c (decode_pieces rest)
  | Unit hi :: rest =>
      match rest with
      | Unit lo :: rest' =>
          if is_high hi && is_low lo
          then utf8 (65536 + (hi - 55296) * 1024 + (lo - 56320))%N
               ++ decode_pieces rest'
          else utf8 hi ++ decode_pieces rest
      | _ => utf8 hi ++ decode_pieces rest
      end
  end.

Definition parse_string (s : string) : option (string * string) :=
  match lex_string s with
  | Some (ps, r) => Some (decode_pieces ps, r)
  | None => None
  end.

Fixpoint span_digits (s : string) : string * string :=
  match s with
  | String c rest =>
      if is_digit c
      then let (ds, r) := span_digits rest in (String c ds, r)
      else ("", s)
  | EmptyString => ("", "")
  end.

(** [m / 10^d] in lowest terms. *)
Fixpoint normalise (fuel : nat) (m : Z) (d : positive) : number :=
  match fuel with
  | O => NFrac m d
  | S f =>
      if m mod 10 =? 0
      then match d with
           | xH => NInt (m / 10)
           | _ => normalise f (m / 10) (Pos.pred d)
           end
      else NFrac m d
  end.

(** The number [m * 10^e]; an integer is rounded to the nearest
    double. *)
Definition make_number (m e : Z) : number :=
  if m =? 0 then NInt 0
  else if 0 <=? e then NInt (round_to_double (m * 10 ^ e))
  else match normalise (Z.to_nat (- e)) m (Z.to_pos (- e)) with
       | NInt z => NInt (round_to_double z)
       | x => x
       end.

(** [after c s]: what follows [c] when [s] starts with it. *)
Definition after (c : ascii) (s : string) : option string :=
  match s with
  | String d rest => if Ascii.eqb c d then Some rest else None
  | EmptyString => None
  end.

(** [expect word s]: what follows [word] when [s] starts with it. *)
Fixpoint expect (word : string) (s : string) : option string :=
  match word with
  | EmptyString => Some s
  | String a word' =>
      match s with
      | String b s' => if Ascii.eqb a b then expect word' s' else None
      | EmptyString => None
      end
  end.

(** The optional sign of a number or of an exponent. *)
Definition minus_sign (s : string) : bool * string :=
  match after "-" s with
  | Some r => (true, r)
  | None => (false, s)
  end.

Definition exponent_sign (s : string) : Z * string :=
  match after "+" s with
  | Some r => (1, r)
  | None =>
      match after "-" s with
      | Some r => (-1, r)
      | None => (1, s)
      end
  end.

(** The optional fraction: a dot and at least one digit. *)
Definition fraction (s : string) : option (string * string) :=
  match after "." s with
  | Some r =>
      let (fp, rest) := span_digits r in
      if (fp =? "")%string then None else Some (fp, rest)
  | None => Some ("", s)
  end.

(** The optional exponent: [e] or [E], a sign, at least one digit. *)
Definition exponent (s : string) : option (Z * string) :=
  match s with
  | String c r =>
      if Ascii.eqb c "e" || Ascii.eqb c "E" then
        let (sgn, r1) := exponent_sign r in
        let (ep, rest) := span_digits r1 in
        if (ep =? "")%string then None
        else Some (sgn * Z.of_N (digits_to_N 0 ep), rest)
      else Some (0, s)
  | EmptyString => Some (0, s)
  end.

(** A number token: [-? int frac? exp?], the integer part without a
    leading zero. *)
Definition parse_number (s : string) : option (number * string) :=
  let (neg, s1) := minus_sign s in
  let (ip, s2) := span_digits s1 in
  if (ip =? "")%string then None
  else if is_prefix "0" ip && negb (ip =? "0")%string then None
  else
    match fraction s2 with
    | None => None
    | Some (fp, s3) =>
        match exponent s3 with
        | None => None
        | Some (e, s4) =>
            let m := Z.of_N (digits_to_N 0 (ip ++ fp)) in
            Some (make_number (if neg : bool then - m else m)
                    (e - Z.of_nat (String.length fp)), s4)
        end
    end.

(** ** Grammar

    The value parser is a recursive descent with a step budget; the budget
    [budget text] is enough for every text ([parse_value_never_exhausted]
    below), so [Exhausted] never shows. *)

Inductive parsed (A : Type) : Type :=
| Parsed (a : A) (rest : string)
| Malformed
| Exhausted.
Arguments Parsed {A} a rest.
Arguments Malformed {A}.
Arguments Exhausted {A}.

Definition pmap {A B} (f : A -> B) (p : parsed A) : parsed B :=
  match p with
  | Parsed a r => Parsed (f a) r
  | Malformed => Malformed
  | Exhausted => Exhausted
  end.

Definition keyword (word : string) (v : value) (s : string) : parsed value :=
  match expect word s with
  | Some r => Parsed v r
  | None => Malformed
  end.

Definition string_value (s : string) : parsed value :=
  match parse_string s with
  | Some (str, r) => Parsed (VStr str) r
  | None => Malformed
  end.

Definition number_value (s : string) : parsed value :=
  match parse_number s with
  | Some (n, r) => Parsed (VNum n) r
  | None => Malformed
  end.

Fixpoint parse_value (fuel : nat) (s : string) {struct fuel} : parsed value :=
  match fuel with
  | O => Exhausted
  | S f =>
      match skip_ws s with
      | EmptyString => Malformed
      | String c rest as s0 =>
          if Ascii.eqb c "[" then
            match after "]" (skip_ws rest) with
            | Some r => Parsed (VArr []) r
            | None => pmap VArr (parse_elements f (skip_ws rest))
            end
          else if Ascii.eqb c "{" then
            match after "}" (skip_ws rest) with
            | Some r => Parsed (VObj []) r
            | None =>
                pmap (fun kvs => VObj (assign [] kvs))
                  (parse_members f (skip_ws rest))
            end
          else if Ascii.eqb c dquote_char then string_value rest
          else if Ascii.eqb c "t" then keyword "true" (VBool true) s0
          else if Ascii.eqb c "f" then keyword "false" (VBool false) s0
          else if Ascii.eqb c "n" then keyword "null" VNull s0
          else number_value s0
      end
  end

with parse_elements (fuel : nat) (s : string) {struct fuel}
    : parsed (list value) :=
  match fuel with
  | O => Exhausted
  | S f =>
      match parse_value f s with
      | Parsed v r =>
          match after "," (skip_ws r) with
          | Some r' => pmap (cons v) (parse_elements f r')
          | None =>
              match after "]" (skip_ws r) with
              | Some r' => Parsed [v] r'
              | None => Malformed
              end
          end
      | Malformed => Malformed
      | Exhausted => Exhausted
      end
  end

with parse_members (fuel : nat) (s : string) {struct fuel} : parsed obj :=
  match fuel with
  | O => Exhausted
  | S f =>
      match after dquote_char (skip_ws s) with
      | Some r0 =>
          match parse_string r0 with
          | Some (k, r1) =>
              match after ":" (skip_ws r1) with
              | Some r2 =>
                  match parse_value f r2 with
                  | Parsed v r3 =>
                      match after "," (skip_ws r3) with
                      | Some r4 => pmap (cons (k, v)) (parse_members f r4)
                      | None =>
                          match after "}" (skip_ws r3) with
                          | Some r4 => Parsed [(k, v)] r4
                          | None => Malformed
                          end
                      end
                  | Malformed => Malformed
                  | Exhausted => Exhausted
                  end
              | None => Malformed
              end
          | None => Malformed
          end
      | None => Malformed
      end
  end.

Definition budget (text : string) : nat := 2 * String.length text + 2.

(** [JSON.parse(text)]: the value, or a [SyntaxError]. *)
Definition parse (text : string) : outcome value :=
  match parse_value (budget text) text with
  | Parsed v rest =>
      if (skip_ws rest =? "")%string then Return v
      else Throw (SyntaxError "Unexpected non-whitespace character after JSON")
  | _ => Throw (SyntaxError "Unexpected token in JSON")
  end.

End JSON.

(** [`${x}`] for the result of [JSON.stringify]. *)
Definition template (t : option string) : string :=
  match t with
  | Some s => s
  | None => "undefined"
  end.

(* ===================================================================== *)
(** * The Fetch API *)
(* ===================================================================== *)

(** A request as [fetch(url, init)] receives it. *)
Record Request : Type := { url : string; init : obj }.

(** A response: its status code and its body, [None] when the body cannot
    be read. *)
Record Response : Type := { status : Z; body : option string }.

(** [response.ok]: the status is in the range 200-299. *)
Definition ok (r : Response) : bool := (200 <=? status r) && (status r <=? 299).

(** [response.text()] *)
Definition Response_text (r : Response) : outcome string :=
  match body r with
  | Some t => Return t
  | None => Throw (TypeError "Failed to read the response body")
  end.

(** [response.json()] *)
Definition Response_json (r : Response) : outcome value :=
  obind (Response_text r) JSON.parse.

(* ===================================================================== *)
(** * Effects *)
(* ===================================================================== *)

(** What a run of the client leaves behind: the lines handed to the
    logger and the requests handed to [fetch], both in order.  The logger
    supplied at construction is taken not to throw. *)
Record World : Type := { log : list string; sent : list Request }.

Definition empty_world : World := {| log := []; sent := [] |}.

Definition M (A : Type) : Type := World -> outcome A * World.

Definition ret {A} (a : A) : M A := fun w => (Return a, w).

Definition throw {A} (e : exn) : M A := fun w => (Throw e, w).

Definition bind {A B} (m : M A) (k : A -> M B) : M B :=
  fun w =>
    match m w with
    | (Return a, w') => k a w'
    | (Throw e, w') => (Throw e, w')
    end.

Definition lift {A} (o : outcome A) : M A := fun w => (o, w).

Declare Scope client_scope.
Delimit Scope client_scope with client.
Notation "x <- m ;; k" := (bind m (fun x => k))
  (at level 61, m at next level, right associativity) : client_scope.
Notation "m ;; k" := (bind m (fun _ => k))
  (at level 61, right associativity) : client_scope.
Local Open Scope client_scope.

Definition result_of {A} (r : outcome A * World) : outcome A := fst r.
Definition world_of {A} (r : outcome A * World) : World := snd r.

(* ===================================================================== *)
(** * The client ([src/lib/api.ts]) *)
(* ===================================================================== *)

(** The constants of the module. *)
Definition ORDERBOOK_VERSION : Z := 1.
Definition API_VERSION : Z := 1.
Definition API_BASE_MAINNET : string := "https://api.opensea.io".
Definition API_BASE_RINKEBY : string := "https://rinkeby-api.opensea.io".
Definition SITE_HOST_MAINNET : string := "https://opensea.io".
Definition SITE_HOST_RINKEBY : string := "https://rinkeby.opensea.io".

Inductive Network : Type := Main | Rinkeby.

(** [OpenSeaAPIConfig]; the gas price is not read by the client. *)
Record OpenSeaAPIConfig : Type := {
  config_networkName : option Network;
  config_apiKey : option string;
  config_apiBaseUrl : option string
}.

(** The fields of an [OpenSeaAPI] instance. *)
Record OpenSeaAPI : Type := {
  hostUrl : string;
  apiBaseUrl : string;
  pageSize : Z;
  apiKey : option string
}.

(** [s || fallback] for an optional string. *)
Definition or_default (s : option string) (fallback : string) : string :=
  match s with
  | Some t => if (t =? "")%string then fallback else t
  | None => fallback
  end.

(** The constructor. *)
Definition new_OpenSeaAPI (config : OpenSeaAPIConfig) : OpenSeaAPI :=
  match config_networkName config with
  | Some Rinkeby =>
      {| hostUrl := SITE_HOST_RINKEBY;
         apiBaseUrl := or_default (config_apiBaseUrl config) API_BASE_RINKEBY;
         pageSize := 20;
         apiKey := config_apiKey config |}
  | _ =>
      {| hostUrl := SITE_HOST_MAINNET;
         apiBaseUrl := or_default (config_apiBaseUrl config) API_BASE_MAINNET;
         pageSize := 20;
         apiKey := config_apiKey config |}
  end.


(** An optional string as a value. *)
Definition value_of_key (k : option string) : value :=
  match k with
  | Some s => VStr s
  | None => VUndefined
  end.

(** [o.k] on a property list. *)
Definition prop (k : string) (o : obj) : value :=
  match obj_get k o with
  | Some v => v
  | None => VUndefined
  end.

(** [v.map(f)] *)
Definition array_map {A} (name : string) (v : value) (f : value -> outcome A)
  : outcome (list A) :=
  match v with
  | VArr l => map_outcome f l
  | VUndefined =>
      Throw (TypeError "Cannot read properties of undefined (reading 'map')")
  | VNull => Throw (TypeError "Cannot read properties of null (reading 'map')")
  | _ => Throw (TypeError (name ++ ".map is not a function"))
  end.

(** [v.join(sep)] *)
Definition call_join (name : string) (v : value) (sep : string) : outcome string :=
  match v with
  | VArr l => array_join sep l
  | VUndefined =>
      Throw (TypeError "Cannot read properties of undefined (reading 'join')")
  | VNull => Throw (TypeError "Cannot read properties of null (reading 'join')")
  | _ => Throw (TypeError (name ++ ".join is not a function"))
  end.

(** A token id is a string or a number. *)
Inductive token_id : Type :=
| TokenString (s : string)
| TokenNumber (n : number).

(** [`${tokenId}`] *)
Definition token_id_text (t : token_id) : string :=
  match t with
  | TokenString s => s
  | TokenNumber n => number_to_string n
  end.

(** The results of the list operations. *)
Record OrdersPage (Order : Type) : Type :=
  { orders : list Order; count : value }.
Record AssetsPage (Asset : Type) : Type :=
  { assets : list Asset; assets_estimatedCount : value }.
Record TokensPage (Token : Type) : Type :=
  { tokens : list Token }.
Record BundlesPage (Bundle : Type) : Type :=
  { bundles : list Bundle; bundles_estimatedCount : value }.
Arguments orders {Order} _.
Arguments count {Order} _.
Arguments assets {Asset} _.
Arguments assets_estimatedCount {Asset} _.
Arguments tokens {Token} _.
Arguments bundles {Bundle} _.
Arguments bundles_estimatedCount {Bundle} _.

Section Client.

(** The network and the server behind it: what [fetch] resolves to, or
    the exception it rejects with. *)
Variable fetch : Request -> outcome Response.

(** [QueryString.stringify] of the [query-string] package. *)
Variable QueryString_stringify : obj -> string.

(** The normalizers of [./utils] and the records they build. *)
Variables Order OpenSeaAsset OpenSeaAssetBundle FungibleToken : Type.
Variable orderFromJSON : value -> outcome Order.
Variable assetFromJSON : value -> outcome OpenSeaAsset.
Variable assetBundleFromJSON : value -> outcome OpenSeaAssetBundle.
Variable tokenFromJSON : value -> outcome FungibleToken.

(** The orderbook version the module is built with
    ([ORDERBOOK_VERSION] in the source, where it is 1). *)
Variable version : Z.

Definition ORDERBOOK_PATH : string := "/wyvern/v" ++ string_of_Z version.
Definition API_PATH : string := "/api/v" ++ string_of_Z version.

(** [this.logger(line)] *)
Definition logger (line : string) : M unit :=
  fun w => (Return tt, {| log := (log w ++ [line])%list; sent := sent w |}).

(** [fetch(url, init)] *)
Definition call_fetch (finalUrl : string) (finalOpts : obj) : M Response :=
  fun w =>
    let r := {| url := finalUrl; init := finalOpts |} in
    (fetch r, {| log := log w; sent := (sent w ++ [r])%list |}).

(** The [try] block of [_handleApiResponse]: the body text, replaced by
    its JSON value when it parses; [undefined] when the text cannot be
    read. *)
Definition error_result (response : Response) : value :=
  match Response_text response with
  | Throw _ => VUndefined
  | Return text =>
      match JSON.parse text with
      | Return json => json
      | Throw _ => VStr text
      end
  end.

(** [result && result.errors] *)
Definition result_errors (result : value) : outcome value :=
  if truthy result then get_prop result "errors" else Return result.

(** The [switch] on the status code. *)
Definition error_message (status : Z) (result : value) : outcome string :=
  let dump := template (JSON.stringify result) in
  if status =? 400 then
    obind (result_errors result) (fun errors =>
      if truthy errors
      then call_join "result.errors" errors ", "
      else Return ("Invalid request: " ++ dump))
  else if (status =? 401) || (status =? 403) then
    Return ("Unauthorized. Full message was '" ++ dump ++ "'")
  else if status =? 404 then
    Return ("Not found. Full message was '" ++ dump ++ "'")
  else if status =? 500 then
    Return ("Internal server error. OpenSea has been alerted, but if the problem persists please contact us via Discord: https://discord.gg/ga8EJbv - full message was " ++ dump)
  else
    Return ("status code " ++ string_of_Z status ++ ". Message: " ++ dump).

Definition _handleApiResponse (response : Response) : M Response :=
  if ok response then
    logger ("Got success: " ++ string_of_Z (status response)) ;;
    ret response
  else
    let result := error_result response in
    logger ("Got error " ++ string_of_Z (status response) ++ ": "
            ++ template (JSON.stringify result)) ;;
    errorMessage <- lift (error_message (status response) result) ;;
    throw (Error ("API Error: " ++ errorMessage)).

(** The headers of the outgoing request: the key header when a key is
    set, then the caller's headers. *)
Definition final_headers (api : OpenSeaAPI) (opts : obj) : obj :=
  let apiKey := value_of_key (apiKey api) in
  assign
    (spread (if truthy apiKey then VObj [("X-API-KEY", apiKey)] else VObj []))
    (spread_props (js_or (prop "headers" opts) (VObj []))).

(** [finalOpts]: the caller's options with the merged headers. *)
Definition finalOpts (api : OpenSeaAPI) (opts : obj) : obj :=
  obj_set "headers" (VObj (final_headers api opts)) (spread (VObj opts)).

Definition _fetch (api : OpenSeaAPI) (apiPath : string) (opts : obj)
  : M Response :=
  let apiBase := apiBaseUrl api in
  let finalUrl := apiBase ++ apiPath in
  let finalOpts := finalOpts api opts in
  text <- lift (match JSON.stringify (VObj finalOpts) with
                | Some t => Return t
                | None => Throw (TypeError
                    "Cannot read properties of undefined (reading 'substr')")
                end) ;;
  logger ("Sending request: " ++ finalUrl ++ " " ++ substr 100 text ++ "...") ;;
  res <- call_fetch finalUrl finalOpts ;;
  _handleApiResponse res.

Definition get (api : OpenSeaAPI) (apiPath : string) (query : obj)
  : M Response :=
  let qs := QueryString_stringify query in
  let url := apiPath ++ "?" ++ qs in
  _fetch api url [].

(** The options [post] hands to [_fetch]. *)
Definition post_fetchOpts (body : value) (opts : obj) : obj :=
  assign
    [ ("method", VStr "POST");
      ("body", if truthy body
               then match JSON.stringify body with
                    | Some t => VStr t
                    | None => VUndefined
                    end
               else VUndefined);
      ("headers", VObj [ ("Accept", VStr "application/json");
                         ("Content-Type", VStr "application/json") ]) ]
    (spread_props (VObj opts)).

Definition post (api : OpenSeaAPI) (apiPath : string) (body : value)
    (opts : obj) : M Response :=
  let fetchOpts := post_fetchOpts body opts in
  _fetch api apiPath fetchOpts.

Definition put (api : OpenSeaAPI) (apiPath : string) (body : value)
    (opts : obj) : M Response :=
  post api apiPath body
    (assign [("method", VStr "PUT")] (spread_props (VObj opts))).

(** [{ ...query, limit: this.pageSize, offset: (page - 1) * this.pageSize }];
    the arithmetic is that of doubles. *)
Definition paged_query (api : OpenSeaAPI) (query : obj) (page : Z) : obj :=
  assign (spread (VObj query))
    [ ("limit", VInt (pageSize api));
      ("offset", VInt (number_times (number_minus page 1) (pageSize api))) ].

(** [json ? normalize(json) : null] *)
Definition normalize_or_null {A} (normalize : value -> outcome A)
    (json : value) : outcome (option A) :=
  if truthy json
  then obind (normalize json) (fun a => Return (Some a))
  else Return None.

Definition postOrder (api : OpenSeaAPI) (order : obj) : M Order :=
  response <- post api (ORDERBOOK_PATH ++ "/orders/post") (VObj order) [] ;;
  json <- lift (Response_json response) ;;
  lift (orderFromJSON json).

Definition getOrder (api : OpenSeaAPI) (query : obj) : M (option Order) :=
  response <- get api (ORDERBOOK_PATH ++ "/orders") query ;;
  if version =? 0 then
    json <- lift (Response_json response) ;;
    orderJSON <- lift (get_prop json "0") ;;
    lift (normalize_or_null orderFromJSON orderJSON)
  else
    json <- lift (Response_json response) ;;
    orders <- lift (get_prop json "orders") ;;
    orderJSON <- lift (get_prop orders "0") ;;
    lift (normalize_or_null orderFromJSON orderJSON).

Definition getOrders (api : OpenSeaAPI) (query : obj) (page : Z)
  : M (OrdersPage Order) :=
  response <- get api (ORDERBOOK_PATH ++ "/orders") (paged_query api query page) ;;
  if version =? 0 then
    json <- lift (Response_json response) ;;
    orders <- lift (array_map "json" json orderFromJSON) ;;
    count <- lift (get_prop json "length") ;;
    ret {| orders := orders; count := count |}
  else
    json <- lift (Response_json response) ;;
    list <- lift (get_prop json "orders") ;;
    orders <- lift (array_map "json.orders" list orderFromJSON) ;;
    count <- lift (get_prop json "count") ;;
    ret {| orders := orders; count := count |}.

Definition getAsset (api : OpenSeaAPI) (tokenAddress : string)
    (tokenId : token_id) : M (option OpenSeaAsset) :=
  response <- get api (API_PATH ++ "/asset/" ++ tokenAddress ++ "/"
                       ++ token_id_text tokenId) [] ;;
  json <- lift (Response_json response) ;;
  lift (normalize_or_null assetFromJSON json).

Definition getAssets (api : OpenSeaAPI) (query : obj) (page : Z)
  : M (AssetsPage OpenSeaAsset) :=
  response <- get api (API_PATH ++ "/assets/") (paged_query api query page) ;;
  json <- lift (Response_json response) ;;
  list <- lift (get_prop json "assets") ;;
  assets <- lift (array_map "json.assets" list assetFromJSON) ;;
  estimated <- lift (get_prop json "estimated_count") ;;
  ret {| assets := assets; assets_estimatedCount := estimated |}.

Definition getTokens (api : OpenSeaAPI) (query : obj) (page : Z)
  : M (TokensPage FungibleToken) :=
  response <- get api (API_PATH ++ "/tokens/") (paged_query api query page) ;;
  json <- lift (Response_json response) ;;
  tokens <- lift (array_map "json" json tokenFromJSON) ;;
  ret {| tokens := tokens |}.

Definition getBundle (api : OpenSeaAPI) (slug : string)
  : M (option OpenSeaAssetBundle) :=
  response <- get api (API_PATH ++ "/bundle/" ++ slug ++ "/") [] ;;
  json <- lift (Response_json response) ;;
  lift (normalize_or_null assetBundleFromJSON json).

Definition getBundles (api : OpenSeaAPI) (query : obj) (page : Z)
  : M (BundlesPage OpenSeaAssetBundle) :=
  response <- get api (API_PATH ++ "/bundles/") (paged_query api query page) ;;
  json <- lift (Response_json response) ;;
  list <- lift (get_prop json "bundles") ;;
  bundles <- lift (array_map "json.bundles" list assetBundleFromJSON) ;;
  estimated <- lift (get_prop json "estimated_count") ;;
  ret {| bundles := bundles; bundles_estimatedCount := estimated |}.

End Client.

Arguments postOrder fetch {Order} orderFromJSON version api order _.
Arguments getOrder fetch QueryString_stringify {Order} orderFromJSON version api query _.
Arguments getOrders fetch QueryString_stringify {Order} orderFromJSON version api query page _.
Arguments getAsset fetch QueryString_stringify {OpenSeaAsset} assetFromJSON version api tokenAddress tokenId _.
Arguments getAssets fetch QueryString_stringify {OpenSeaAsset} assetFromJSON version api query page _.
Arguments getTokens fetch QueryString_stringify {FungibleToken} tokenFromJSON version api query page _.
Arguments getBundle fetch QueryString_stringify {OpenSeaAssetBundle} assetBundleFromJSON version api slug _.
Arguments getBundles fetch QueryString_stringify {OpenSeaAssetBundle} assetBundleFromJSON version api query page _.

(* ===================================================================== *)
(** * Collaborators to run the client with *)
(* ===================================================================== *)

(** The properties of the client are proved for every [fetch], every
    query-string encoder and every normalizer.  The definitions of this
    part are one choice of them, on which the client can be run. *)

Module QueryString.

Definition unreserved (c : ascii) : bool :=
  let n := N_of_ascii c in
  ((65 <=? n) && (n <=? 90) || (97 <=? n) && (n <=? 122)
   || (48 <=? n) && (n <=? 57)
   || (n =? 45) || (n =? 95) || (n =? 46) || (n =? 126))%N.

Definition upper_hex (n : N) : ascii :=
  if (n <? 10)%N then ascii_of_N (48 + n)%N else ascii_of_N (55 + n)%N.

(** Strict URI component encoding, byte by byte. *)
Fixpoint encode (s : string) : string :=
  match s with
  | EmptyString => ""
  | String c rest =>
      (if unreserved c then String c ""
       else let n := N_of_ascii c in
            String "%" (String (upper_hex (n / 16)%N)
                          (String (upper_hex (n mod 16)%N) "")))
      ++ encode rest
  end.

Fixpoint insert_key (kv : string * value) (l : obj) : obj :=
  match l with
  | [] => [kv]
  | kv' :: rest =>
      if String.leb (fst kv) (fst kv') then kv :: l
      else kv' :: insert_key kv rest
  end.

Definition sort_keys (o : obj) : obj := fold_right insert_key [] o.

(** The text of a value of a query; this stand-in leaves a value empty
    when it cannot be converted to a string. *)
Definition value_text (v : value) : string :=
  match to_string v with
  | Return t => t
  | Throw _ => ""
  end.

(** The pairs one array-valued key contributes. *)
Fixpoint array_pairs (key : string) (l : list value) : list string :=
  match l with
  | [] => []
  | VUndefined :: rest => array_pairs key rest
  | VNull :: rest => encode key :: array_pairs key rest
  | v :: rest => (encode key ++ "=" ++ encode (value_text v)) :: array_pairs key rest
  end.

Definition pair_text (kv : string * value) : string :=
  match snd kv with
  | VUndefined => ""
  | VNull => encode (fst kv)
  | VArr l => join_strings "&" (array_pairs (fst kv) l)
  | v => encode (fst kv) ++ "=" ++ encode (value_text v)
  end.

(** The default behaviour of the package: keys in sorted order,
    [undefined] values left out, [key=value] pairs joined by [&]. *)
Definition stringify (query : obj) : string :=
  join_strings "&"
    (filter (fun t => negb (t =? "")%string)
       (map pair_text (sort_keys (own_props query)))).

End QueryString.

(** A normalizer that keeps the record as it came. *)
Definition keep_json (json : value) : outcome value := Return json.

(** A server that answers every request with the same response. *)
Definition always (r : Response) : Request -> outcome Response :=
  fun _ => Return r.

(** A client as [new OpenSeaAPI({})] and as
    [new OpenSeaAPI({ apiKey: 'secret' })] build it. *)
Definition anonymous_api : OpenSeaAPI :=
  new_OpenSeaAPI {| config_networkName := None; config_apiKey := None;
                    config_apiBaseUrl := None |}.
Definition keyed_api : OpenSeaAPI :=
  new_OpenSeaAPI {| config_networkName := None; config_apiKey := Some "secret";
                    config_apiBaseUrl := None |}.

(** Running a method of the client from a fresh world. *)
Definition run {A} (m : M A) : outcome A * World := m empty_world.

(* ===================================================================== *)
(** * Vocabulary of the specification *)
(* ===================================================================== *)

(** The request [_fetch] hands to [fetch]. *)
Definition fetch_request (api : OpenSeaAPI) (apiPath : string) (opts : obj)
  : Request :=
  {| url := apiBaseUrl api ++ apiPath; init := finalOpts api opts |}.

(** The request [get] issues for a path and a query object. *)
Definition get_request (QueryString_stringify : obj -> string)
    (api : OpenSeaAPI) (apiPath : string) (query : obj) : Request :=
  fetch_request api (apiPath ++ "?" ++ QueryString_stringify query) [].

(** The line [_fetch] logs before the request leaves. *)
Definition sending_line (r : Request) : string :=
  "Sending request: " ++ url r ++ " "
  ++ substr 100 (template (JSON.stringify (VObj (init r)))) ++ "...".

(** The world once [r] has been logged and sent. *)
Definition after_sending (r : Request) (w : World) : World :=
  {| log := (log w ++ [sending_line r])%list; sent := (sent w ++ [r])%list |}.

(** The world once [line] has been logged. *)
Definition logged (line : string) (w : World) : World :=
  {| log := (log w ++ [line])%list; sent := sent w |}.

(** What a failed response is turned into: the categorized error, or the
    exception met while building its message. *)
Definition raised (response : Response) : exn :=
  match error_message (status response) (error_result response) with
  | Return message => Error ("API Error: " ++ message)
  | Throw e => e
  end.

(** A header of a request. *)
Definition request_header (name : string) (r : Request) : option value :=
  match prop "headers" (init r) with
  | VObj h => obj_get name h
  | _ => None
  end.

(** A header among the options a caller passes. *)
Definition caller_header (name : string) (opts : obj) : option value :=
  obj_get name (spread_props (js_or (prop "headers" opts) (VObj []))).

(** The HTTP method of a request. *)
Definition request_method (r : Request) : value := prop "method" (init r).

(** The key a client was configured with, if any: the empty string is no
    key. *)
Definition configured_key (config : OpenSeaAPIConfig) : option string :=
  match config_apiKey config with
  | Some k => if (k =? "")%string then None else Some k
  | None => None
  end.

(** The text the error messages embed for a response: the JSON text of
    what the handler decoded from the body. *)
Definition body_dump (response : Response) : string :=
  template (JSON.stringify (error_result response)).

(** [put] as the specification words it: [post] with the method of the
    options overridden to PUT, [{ ...opts, method: 'PUT' }]. *)
Definition put_spec (fetch : Request -> outcome Response) (api : OpenSeaAPI)
    (apiPath : string) (body : value) (opts : obj) : M Response :=
  post fetch api apiPath body (obj_set "method" (VStr "PUT") (spread (VObj opts))).

(** A computation that leaves the world as it found it. *)
Definition quiet {A} (m : M A) : Prop := forall w, world_of (m w) = w.


(** ** Sample payloads *)

(** [{"hash":"0x1","side":1}] *)
Definition order_text : string :=
  "{" ++ dquote ++ "hash" ++ dquote ++ ":" ++ dquote ++ "0x1" ++ dquote ++ ","
  ++ dquote ++ "side" ++ dquote ++ ":1}".

Definition order_json : value :=
  VObj [("hash", VStr "0x1"); ("side", VInt 1)].

(** The legacy page [[orderJson]] and the versioned page
    [{"orders":[orderJson],"count":57}]. *)
Definition legacy_page : Response :=
  {| status := 200; body := Some ("[" ++ order_text ++ "]") |}.

Definition versioned_page : Response :=
  {| status := 200;
     body := Some ("{" ++ dquote ++ "orders" ++ dquote ++ ":[" ++ order_text
                   ++ "]," ++ dquote ++ "count" ++ dquote ++ ":57}") |}.

(** The empty pages [[]] and [{"orders":[],"count":0}]. *)
Definition legacy_empty_page : Response :=
  {| status := 200; body := Some "[]" |}.

Definition versioned_empty_page : Response :=
  {| status := 200;
     body := Some ("{" ++ dquote ++ "orders" ++ dquote ++ ":[],"
                   ++ dquote ++ "count" ++ dquote ++ ":0}") |}.

(** ** Sample responses and options *)

(** A plain success, with body [{}]. *)
Definition accepted : Response := {| status := 200; body := Some "{}" |}.

(** A success whose body is the JSON text [null]. *)
Definition nothing_found : Response := {| status := 200; body := Some "null" |}.

(** 404 with body [{}]. *)
Definition not_found : Response := {| status := 404; body := Some "{}" |}.

(** 404 with body [{"detail": "Not found."}], a space after the colon. *)
Definition not_found_detail_text : string :=
  "{" ++ dquote ++ "detail" ++ dquote ++ ": " ++ dquote ++ "Not found."
  ++ dquote ++ "}".
Definition not_found_detail : Response :=
  {| status := 404; body := Some not_found_detail_text |}.

(** 502 with the body [Bad Gateway], which is not JSON. *)
Definition bad_gateway : Response :=
  {| status := 502; body := Some "Bad Gateway" |}.

(** 400 with body [{"errors":["bad salt","bad side"]}]. *)
Definition invalid_order : Response :=
  {| status := 400;
     body := Some ("{" ++ dquote ++ "errors" ++ dquote ++ ":[" ++ dquote
                   ++ "bad salt" ++ dquote ++ "," ++ dquote ++ "bad side"
                   ++ dquote ++ "]}") |}.

(** 400 with body [{"detail":"malformed"}]: no [errors] member. *)
Definition invalid_detail : Response :=
  {| status := 400;
     body := Some ("{" ++ dquote ++ "detail" ++ dquote ++ ":" ++ dquote
                   ++ "malformed" ++ dquote ++ "}") |}.

(** 400 with body [{"errors":"oops"}]: [errors] is a string. *)
Definition invalid_oops : Response :=
  {| status := 400;
     body := Some ("{" ++ dquote ++ "errors" ++ dquote ++ ":" ++ dquote
                   ++ "oops" ++ dquote ++ "}") |}.

(** 500 whose body cannot be read. *)
Definition unreadable : Response := {| status := 500; body := None |}.

(** Options [{ method: 'PATCH' }] and
    [{ headers: { 'X-API-KEY': 'mine' } }]. *)
Definition patch_opts : obj := [("method", VStr "PATCH")].
Definition own_key_opts : obj :=
  [("headers", VObj [("X-API-KEY", VStr "mine")])].

(** Options [{ headers: { Accept: 'text/plain' } }]. *)
Definition accept_opts : obj :=
  [("headers", VObj [("Accept", VStr "text/plain")])].

(** ** Vocabulary of the further properties *)

(** A run that ended in the exception [e] right after the request [r] was
    logged and sent: the handler logged nothing. *)
Definition rejected_with {A} (e : exn) (r : Request) (w : World)
    (out : outcome A * World) : Prop :=
  result_of out = Throw e /\ world_of out = after_sending r w.

(** The line the handler logs for a response. *)
Definition status_line (response : Response) : string :=
  if ok response
  then "Got success: " ++ string_of_Z (status response)
  else "Got error " ++ string_of_Z (status response) ++ ": "
       ++ body_dump response.

(** The base URL of the network a configuration names. *)
Definition network_base (config : OpenSeaAPIConfig) : string :=
  match config_networkName config with
  | Some Rinkeby => API_BASE_RINKEBY
  | _ => API_BASE_MAINNET
  end.

(** The site of the network a configuration names. *)
Definition network_host (config : OpenSeaAPIConfig) : string :=
  match config_networkName config with
  | Some Rinkeby => SITE_HOST_RINKEBY
  | _ => SITE_HOST_MAINNET
  end.

(** The key header of a client, as a header object. *)
Definition key_headers (api : OpenSeaAPI) : obj :=
  match apiKey api with
  | Some k => if (k =? "")%string then [] else [("X-API-KEY", VStr k)]
  | None => []
  end.

(** An option of a request. *)
Definition request_option (k : string) (r : Request) : value := prop k (init r).

(** The call [out], which was to issue [r], passes a failure of the
    network on as it is. *)
Definition passes_failure_on {A} (fetch : Request -> outcome Response)
    (r : Request) (w : World) (out : outcome A * World) : Prop :=
  forall e, fetch r = Throw e -> rejected_with e r w out.

(** The call [out], which was to issue [r], raises [e] when the server
    answers [r] with [response]. *)
Definition raises_on {A} (fetch : Request -> outcome Response)
    (r : Request) (response : Response) (e : exn)
    (out : outcome A * World) : Prop :=
  fetch r = Return response -> result_of out = Throw e.

(** ** Further samples *)

Definition quoted (s : string) : string := dquote ++ s ++ dquote.

(** A network on which every request fails. *)
Definition unreachable : Request -> outcome Response :=
  fun _ => Throw (TypeError "Failed to fetch").

(** [{"hash":"0x2","side":0}] *)
Definition second_order_text : string :=
  "{" ++ quoted "hash" ++ ":" ++ quoted "0x2" ++ "," ++ quoted "side" ++ ":0}".
Definition second_order_json : value :=
  VObj [("hash", VStr "0x2"); ("side", VInt 0)].

(** [{"orders":[first,second],"count":2}] and the bare array of the two. *)
Definition two_orders_page : Response :=
  {| status := 200;
     body := Some ("{" ++ quoted "orders" ++ ":[" ++ order_text ++ ","
                   ++ second_order_text ++ "]," ++ quoted "count" ++ ":2}") |}.
Definition legacy_two_orders_page : Response :=
  {| status := 200;
     body := Some ("[" ++ order_text ++ "," ++ second_order_text ++ "]") |}.

(** [{"orders":[first,{"side":1}],"count":2}]: the second record has no
    hash. *)
Definition broken_page : Response :=
  {| status := 200;
     body := Some ("{" ++ quoted "orders" ++ ":[" ++ order_text ++ ",{"
                   ++ quoted "side" ++ ":1}]," ++ quoted "count" ++ ":2}") |}.

(** A normalizer that asks for the hash of a record. *)
Definition hash_of (json : value) : outcome string :=
  match get_prop json "hash" with
  | Return (VStr h) => Return h
  | Return _ => Throw (Error "missing hash")
  | Throw e => Throw e
  end.

(** [{"assets":[{"token_id":"1"}],"estimated_count":12}],
    [{"bundles":[{"slug":"b"}],"estimated_count":3}] and
    [[{"symbol":"WETH"}]]. *)
Definition assets_page : Response :=
  {| status := 200;
     body := Some ("{" ++ quoted "assets" ++ ":[{" ++ quoted "token_id" ++ ":"
                   ++ quoted "1" ++ "}]," ++ quoted "estimated_count"
                   ++ ":12}") |}.
Definition bundles_page : Response :=
  {| status := 200;
     body := Some ("{" ++ quoted "bundles" ++ ":[{" ++ quoted "slug" ++ ":"
                   ++ quoted "b" ++ "}]," ++ quoted "estimated_count"
                   ++ ":3}") |}.
Definition tokens_page : Response :=
  {| status := 200;
     body := Some ("[{" ++ quoted "symbol" ++ ":" ++ quoted "WETH" ++ "}]") |}.

(** A success whose body is a web page. *)
Definition html_page : Response :=
  {| status := 200; body := Some "<html>maintenance</html>" |}.

(** 401 and 403 with the same body, and a 429. *)
Definition unauthorized : Response := {| status := 401; body := Some "{}" |}.
Definition forbidden : Response := {| status := 403; body := Some "{}" |}.
Definition throttled : Response :=
  {| status := 429; body := Some (quoted "slow down") |}.

(** 400 with body [{"errors":{"salt":"bad"}}]: [errors] is an object. *)
Definition invalid_keyed : Response :=
  {| status := 400;
     body := Some ("{" ++ quoted "errors" ++ ":{" ++ quoted "salt" ++ ":"
                   ++ quoted "bad" ++ "}}") |}.

(** An order to post, [{ hash: '0x1' }], and options that bring a body of
    their own, [{ body: 'raw' }]. *)
Definition order_to_post : obj := [("hash", VStr "0x1")].
Definition raw_body_opts : obj := [("body", VStr "raw")].

(** A query [{ owner: '0xabc', limit: 500 }]. *)
Definition owner_query : obj := [("owner", VStr "0xabc"); ("limit", VInt 500)].

(** Configurations: Rinkeby with a base URL of its own, and with an empty
    one. *)
Definition staging_config : OpenSeaAPIConfig :=
  {| config_networkName := Some Rinkeby; config_apiKey := None;
     config_apiBaseUrl := Some "https://staging.example" |}.
Definition empty_base_config : OpenSeaAPIConfig :=
  {| config_networkName := Some Rinkeby; config_apiKey := None;
     config_apiBaseUrl := Some "" |}.


(** Options whose headers come as a list of pairs,
    [{ headers: [['X-API-KEY', 'mine']] }]. *)
Definition pairs_key_opts : obj :=
  [("headers", VArr [VArr [VStr "X-API-KEY"; VStr "mine"]])].

(** 400 with body [{"errors":[{"toString":1}]}]: the one element of the
    list hides the [toString] it would inherit. *)
Definition invalid_unprintable : Response :=
  {| status := 400;
     body := Some ("{" ++ quoted "errors" ++ ":[{" ++ quoted "toString"
                   ++ ":1}]}") |}.

(** Sixty times the letter e with an acute accent: sixty code units in
    120 bytes. *)
Definition e_acute : string :=
  String (ascii_of_N 195) (String (ascii_of_N 169) "").
Definition sixty_accents : string := repeat_string 60 e_acute.

(* ===================================================================== *)
(** * Facts about strings and objects *)
(* ===================================================================== *)

Lemma is_prefix_spec (p s : string) :
  is_prefix p s = true <-> exists post, s = p ++ post.
Proof.
  revert s; induction p as [|a p IH]; intros s; simpl.
  - split; [intros _; now exists s | reflexivity].
  - destruct s as [|b s]; simpl.
    + split; [discriminate | intros [post H]; discriminate].
    + rewrite andb_true_iff, Ascii.eqb_eq, IH. split.
      * intros [-> [post ->]]. now exists post.
      * intros [post H]. injection H as -> ->. split; [reflexivity | now exists post].
Qed.

Lemma contains_spec (needle hay : string) :
  contains needle hay = true <-> Embeds needle hay.
Proof.
  unfold Embeds. induction hay as [|c hay IH]; simpl.
  - rewrite orb_false_r, is_prefix_spec. split.
    + intros [post H]. now exists "", post.
    + intros [pre [post H]]. destruct pre; simpl in H.
      * now exists post.
      * discriminate.
  - rewrite orb_true_iff, is_prefix_spec, IH. split.
    + intros [[post H] | [pre [post H]]].
      * now exists "", post.
      * exists (String c pre), post. simpl. now rewrite H.
    + intros [pre [post H]]. destruct pre as [|d pre]; simpl in H.
      * left. now exists post.
      * right. injection H as _ H. now exists pre, post.
Qed.

Lemma append_assoc (a b c : string) : (a ++ b) ++ c = a ++ (b ++ c).
Proof. induction a; simpl; congruence. Qed.

Lemma Embeds_middle (pre needle post : string) :
  Embeds needle (pre ++ needle ++ post).
Proof. now exists pre, post. Qed.

Lemma append_nil_r (a : string) : a ++ "" = a.
Proof. induction a; simpl; congruence. Qed.

Lemma Embeds_suffix (pre needle : string) : Embeds needle (pre ++ needle).
Proof. exists pre, "". now rewrite append_nil_r. Qed.

Lemma Embeds_append_r (needle a b : string) :
  Embeds needle b -> Embeds needle (a ++ b).
Proof.
  intros [pre [post ->]]. exists (a ++ pre), post. now rewrite append_assoc.
Qed.

Lemma Embeds_append_l (needle a b : string) :
  Embeds needle a -> Embeds needle (a ++ b).
Proof.
  intros [pre [post ->]]. exists pre, (post ++ b).
  now rewrite !append_assoc.
Qed.



Section ObjectFacts.

Implicit Types (k : string) (v : value) (o l : obj).

Lemma obj_get_none k o :
  obj_get k o = None <-> existsb (has_key k) o = false.
Proof.
  induction o as [|[k' v] o IH]; simpl; [tauto|].
  unfold has_key at 1; simpl. rewrite orb_false_iff, <- IH.
  rewrite (String.eqb_sym k' k).
  destruct (obj_get k o), (k =? k')%string; split;
    try discriminate; try tauto; intros [? ?]; discriminate.
Qed.

Lemma obj_has_existsb k o : obj_has k o = existsb (has_key k) o.
Proof.
  unfold obj_has. destruct (obj_get k o) eqn:E.
  - destruct (existsb (has_key k) o) eqn:X; [reflexivity|].
    apply obj_get_none in X. congruence.
  - apply obj_get_none in E. now rewrite E.
Qed.

Lemma obj_get_app k o l :
  obj_get k (o ++ l)%list
  = match obj_get k l with Some w => Some w | None => obj_get k o end.
Proof.
  induction o as [|[k' v] o IH]; simpl.
  - now destruct (obj_get k l).
  - rewrite IH. now destruct (obj_get k l).
Qed.

Lemma obj_get_replace_same k v o :
  existsb (has_key k) o = true ->
  obj_get k (map (fun kv => if has_key k kv then (fst kv, v) else kv) o)
  = Some v.
Proof.
  induction o as [|[k' w] o IH]; simpl; [discriminate|].
  unfold has_key at 1 3; simpl. intros H.
  destruct (existsb (has_key k) o) eqn:X.
  - rewrite (IH eq_refl). now destruct (k' =? k)%string.
  - rewrite orb_false_r in H. rewrite H.
    apply String.eqb_eq in H; subst k'. rewrite String.eqb_refl.
    assert (N : obj_get k
              (map (fun kv => if has_key k kv then (fst kv, v) else kv) o)
            = None).
    { apply obj_get_none. clear -X. induction o as [|[a b] o IH]; simpl in *;
        [reflexivity|]. apply orb_false_iff in X as [X1 X2].
      rewrite X1, X1, (IH X2). reflexivity. }
    now rewrite N.
Qed.

Lemma obj_get_replace_other k k' v o :
  k <> k' ->
  obj_get k (map (fun kv => if has_key k' kv then (fst kv, v) else kv) o)
  = obj_get k o.
Proof.
  intros N. induction o as [|[a b] o IH]; simpl; [reflexivity|].
  rewrite IH. unfold has_key; simpl.
  destruct (a =? k')%string eqn:E; simpl; [|reflexivity].
  apply String.eqb_eq in E; subst a.
  apply String.eqb_neq in N. rewrite N. reflexivity.
Qed.

Lemma obj_get_set_same k v o : obj_get k (obj_set k v o) = Some v.
Proof.
  unfold obj_set. rewrite obj_has_existsb.
  destruct (existsb (has_key k) o) eqn:X.
  - now apply obj_get_replace_same.
  - rewrite obj_get_app. simpl. now rewrite String.eqb_refl.
Qed.

Lemma obj_get_set_other k k' v o :
  k <> k' -> obj_get k (obj_set k' v o) = obj_get k o.
Proof.
  intros N. unfold obj_set. destruct (obj_has k' o).
  - now apply obj_get_replace_other.
  - rewrite obj_get_app. simpl.
    apply String.eqb_neq in N. now rewrite N.
Qed.

Lemma obj_get_set k k' v o :
  obj_get k (obj_set k' v o)
  = if (k =? k')%string then Some v else obj_get k o.
Proof.
  destruct (String.eqb_spec k k') as [->|N].
  - apply obj_get_set_same.
  - now apply obj_get_set_other.
Qed.

(** Assigning a list of properties: the last binding of a key in the
    source wins, an absent key keeps the target's value. *)
Lemma obj_get_assign k o l :
  obj_get k (assign o l)
  = match obj_get k l with Some w => Some w | None => obj_get k o end.
Proof.
  unfold assign. revert o. induction l as [|[k' v] l IH]; intros o; simpl.
  - reflexivity.
  - rewrite IH. destruct (obj_get k l); [reflexivity|].
    rewrite obj_get_set. now destruct (k =? k')%string.
Qed.

Lemma prop_set_same k v o : prop k (obj_set k v o) = v.
Proof. unfold prop. now rewrite obj_get_set_same. Qed.

End ObjectFacts.

Section EnumerationFacts.

Implicit Types (k : string) (o : obj).

Lemma existsb_insert_index (p : string * value -> bool) n kv
    (l : list (N * (string * value))) :
  existsb p (map snd (insert_index n kv l)) = p kv || existsb p (map snd l).
Proof.
  induction l as [|[m kv'] l IH]; simpl; [reflexivity|].
  destruct (n <=? m)%N; simpl; [reflexivity|].
  rewrite IH. now destruct (p kv), (p kv').
Qed.

Lemma index_props_no_name k o :
  array_index k = None ->
  existsb (has_key k) (map snd (index_props o)) = false.
Proof.
  intros K. induction o as [|[a b] o IH]; simpl; [reflexivity|].
  destruct (array_index a) eqn:E; [|exact IH].
  rewrite existsb_insert_index, IH, orb_false_r.
  unfold has_key; simpl. apply String.eqb_neq. congruence.
Qed.

Lemma obj_get_named_props k o :
  array_index k = None -> obj_get k (named_props o) = obj_get k o.
Proof.
  intros K. unfold named_props.
  induction o as [|[a b] o IH]; simpl; [reflexivity|].
  destruct (array_index a) eqn:E; simpl; rewrite IH; [|reflexivity].
  destruct (String.eqb_spec k a) as [->|N]; [congruence|].
  now destruct (obj_get k o).
Qed.

(** Enumeration order does not change what a named key is bound to. *)
Lemma obj_get_own_props k o :
  array_index k = None -> obj_get k (own_props o) = obj_get k o.
Proof.
  intros K. unfold own_props. rewrite obj_get_app, obj_get_named_props by exact K.
  destruct (obj_get k o); [reflexivity|].
  apply obj_get_none. now apply index_props_no_name.
Qed.

Lemma obj_get_spread k o :
  array_index k = None -> obj_get k (spread (VObj o)) = obj_get k o.
Proof.
  intros K. unfold spread. rewrite obj_get_assign. simpl.
  rewrite obj_get_own_props by exact K. now destruct (obj_get k o).
Qed.

End EnumerationFacts.

(* ===================================================================== *)
(** * The parser never runs out of budget *)
(* ===================================================================== *)

Section ParserFacts.

Import JSON.

Lemma skip_ws_length (s : string) :
  (String.length (skip_ws s) <= String.length s)%nat.
Proof.
  induction s as [|c s IH]; simpl; [lia|].
  destruct (is_ws c); simpl; lia.
Qed.

Lemma after_length (c : ascii) (s r : string) :
  after c s = Some r -> String.length s = S (String.length r).
Proof.
  destruct s as [|d s]; simpl; [discriminate|].
  destruct (Ascii.eqb c d); [|discriminate]. now intros [= ->].
Qed.

Lemma expect_length (word s r : string) :
  expect word s = Some r ->
  String.length s = (String.length word + String.length r)%nat.
Proof.
  revert s. induction word as [|a word IH]; intros s; simpl.
  - now intros [= ->].
  - destruct s as [|b s]; [discriminate|].
    destruct (Ascii.eqb a b); [|discriminate].
    intros H. simpl. now rewrite (IH _ H).
Qed.

Lemma lex_string_length (s : string) :
  forall ps r, lex_string s = Some (ps, r) ->
               (String.length r < String.length s)%nat.
Proof.
  remember (String.length s) as n eqn:N.
  assert (B : (String.length s <= n)%nat) by lia. clear N.
  revert s B. induction n as [|n IH]; intros s B ps r H.
  - destruct s; simpl in *; [discriminate | lia].
  - destruct s as [|c rest]; simpl in H; [discriminate|]. simpl in B.
    destruct (Ascii.eqb c dquote_char); [injection H as _ <-; simpl; lia|].
    destruct (Ascii.eqb c bslash_char).
    + destruct rest as [|e rest1]; [discriminate|]. simpl in B.
      destruct (Ascii.eqb e "u").
      * destruct rest1 as [|h1 [|h2 [|h3 [|h4 rest2]]]]; try discriminate.
        simpl in B.
        destruct (hex4 h1 h2 h3 h4); [|discriminate].
        destruct (lex_string rest2) as [[ps' r']|] eqn:L; [|discriminate].
        injection H as _ <-. apply IH in L; simpl; lia.
      * destruct (simple_escape e); [|discriminate].
        destruct (lex_string rest1) as [[ps' r']|] eqn:L; [|discriminate].
        injection H as _ <-. apply IH in L; simpl; lia.
    + destruct (N_of_ascii c <? 32)%N; [discriminate|].
      destruct (lex_string rest) as [[ps' r']|] eqn:L; [|discriminate].
      injection H as _ <-. apply IH in L; simpl; lia.
Qed.

Lemma span_digits_length (s ds r : string) :
  span_digits s = (ds, r) ->
  String.length s = (String.length ds + String.length r)%nat.
Proof.
  revert ds r. induction s as [|c s IH]; intros ds r; simpl.
  - now intros [= <- <-].
  - destruct (is_digit c).
    + destruct (span_digits s) as [ds' r'] eqn:E. intros [= <- <-].
      simpl. now rewrite (IH _ _ eq_refl).
    + now intros [= <- <-].
Qed.

Lemma minus_sign_length (s : string) :
  (String.length (snd (minus_sign s)) <= String.length s)%nat.
Proof.
  unfold minus_sign. destruct (after "-" s) eqn:A; simpl; [|lia].
  apply after_length in A. lia.
Qed.

Lemma exponent_sign_length (s : string) :
  (String.length (snd (exponent_sign s)) <= String.length s)%nat.
Proof.
  unfold exponent_sign. destruct (after "+" s) eqn:A; simpl.
  - apply after_length in A. lia.
  - destruct (after "-" s) eqn:B; simpl; [|lia].
    apply after_length in B. lia.
Qed.

Lemma fraction_length (s fp r : string) :
  fraction s = Some (fp, r) -> (String.length r <= String.length s)%nat.
Proof.
  unfold fraction. destruct (after "." s) eqn:A.
  - destruct (span_digits s0) as [fp' rest] eqn:E.
    destruct (fp' =? "")%string; [discriminate|]. intros [= <- <-].
    apply after_length in A. apply span_digits_length in E. lia.
  - intros [= <- <-]. lia.
Qed.

Lemma exponent_length (s : string) (e : Z) (r : string) :
  exponent s = Some (e, r) -> (String.length r <= String.length s)%nat.
Proof.
  unfold exponent. destruct s as [|c s']; [now intros [= <- <-]|].
  destruct (Ascii.eqb c "e" || Ascii.eqb c "E").
  - pose proof (exponent_sign_length s') as L.
    destruct (exponent_sign s') as [sgn r1]. simpl in L.
    destruct (span_digits r1) as [ep rest] eqn:E.
    destruct (ep =? "")%string; [discriminate|]. intros [= <- <-].
    apply span_digits_length in E. simpl. lia.
  - intros [= <- <-]. lia.
Qed.

Lemma parse_number_length (s : string) (x : number) (r : string) :
  parse_number s = Some (x, r) -> (String.length r < String.length s)%nat.
Proof.
  unfold parse_number. pose proof (minus_sign_length s) as M.
  destruct (minus_sign s) as [neg s1]. simpl in M.
  destruct (span_digits s1) as [ip s2] eqn:E.
  apply span_digits_length in E.
  destruct (ip =? "")%string eqn:I; [discriminate|].
  apply String.eqb_neq in I.
  destruct (is_prefix "0" ip && negb (ip =? "0")%string); [discriminate|].
  destruct (fraction s2) as [[fp s3]|] eqn:F; [|discriminate].
  destruct (exponent s3) as [[e s4]|] eqn:X; [|discriminate].
  intros [= _ <-]. apply fraction_length in F. apply exponent_length in X.
  destruct ip; [congruence | simpl in E; lia].
Qed.

(** Every successful parse consumes at least one character. *)
Lemma parse_consumes (fuel : nat) :
  (forall s v r, parse_value fuel s = Parsed v r ->
                 (String.length r < String.length s)%nat)
  /\ (forall s vs r, parse_elements fuel s = Parsed vs r ->
                     (String.length r < String.length s)%nat)
  /\ (forall s kvs r, parse_members fuel s = Parsed kvs r ->
                      (String.length r < String.length s)%nat).
Proof.
  induction fuel as [|f [IHv [IHe IHm]]];
    [repeat split; intros; discriminate|].
  split; [|split].
  - intros s v r H. simpl in H. pose proof (skip_ws_length s) as W.
    destruct (skip_ws s) as [|c rest]; [discriminate|]. simpl in W.
    pose proof (skip_ws_length rest) as W'.
    destruct (Ascii.eqb c "[").
    { destruct (after "]" (skip_ws rest)) eqn:A.
      - injection H as _ <-. apply after_length in A. lia.
      - destruct (parse_elements f (skip_ws rest)) eqn:E; try discriminate.
        injection H as _ <-. apply IHe in E. lia. }
    destruct (Ascii.eqb c "{").
    { destruct (after "}" (skip_ws rest)) eqn:A.
      - injection H as _ <-. apply after_length in A. lia.
      - destruct (parse_members f (skip_ws rest)) eqn:E; try discriminate.
        injection H as _ <-. apply IHm in E. lia. }
    destruct (Ascii.eqb c dquote_char).
    { unfold string_value, parse_string in H.
      destruct (lex_string rest) as [[ps r']|] eqn:L; [|discriminate].
      injection H as _ <-. apply lex_string_length in L. lia. }
    assert (K : forall word u,
               keyword word u (String c rest) = Parsed v r ->
               (String.length r < String.length s)%nat \/ word = "").
    { intros word u. unfold keyword.
      destruct (expect word (String c rest)) eqn:X; [|discriminate].
      intros [= _ <-]. apply expect_length in X. simpl in X.
      destruct word; [now right | left; simpl in X; lia]. }
    destruct (Ascii.eqb c "t");
      [destruct (K _ _ H) as [?|?]; [assumption | discriminate]|].
    destruct (Ascii.eqb c "f");
      [destruct (K _ _ H) as [?|?]; [assumption | discriminate]|].
    destruct (Ascii.eqb c "n");
      [destruct (K _ _ H) as [?|?]; [assumption | discriminate]|].
    unfold number_value in H.
    destruct (parse_number (String c rest)) as [[x r']|] eqn:P; [|discriminate].
    injection H as _ <-. apply parse_number_length in P. simpl in P. lia.
  - intros s vs r H. simpl in H.
    destruct (parse_value f s) as [v r0| |] eqn:V; try discriminate.
    apply IHv in V. pose proof (skip_ws_length r0) as W.
    destruct (after "," (skip_ws r0)) eqn:A.
    + destruct (parse_elements f s0) eqn:E; try discriminate.
      injection H as _ <-. apply IHe in E. apply after_length in A. lia.
    + destruct (after "]" (skip_ws r0)) eqn:B; [|discriminate].
      injection H as _ <-. apply after_length in B. lia.
  - intros s kvs r H. simpl in H. pose proof (skip_ws_length s) as W.
    destruct (after dquote_char (skip_ws s)) as [r0|] eqn:Q; [|discriminate].
    apply after_length in Q. unfold parse_string in H.
    destruct (lex_string r0) as [[ps r1]|] eqn:L; [|discriminate].
    apply lex_string_length in L. pose proof (skip_ws_length r1) as W1.
    destruct (after ":" (skip_ws r1)) as [r2|] eqn:C; [|discriminate].
    apply after_length in C.
    destruct (parse_value f r2) as [v r3| |] eqn:V; try discriminate.
    apply IHv in V. pose proof (skip_ws_length r3) as W3.
    destruct (after "," (skip_ws r3)) as [r4|] eqn:A.
    + destruct (parse_members f r4) eqn:E; try discriminate.
      injection H as _ <-. apply IHm in E. apply after_length in A. lia.
    + destruct (after "}" (skip_ws r3)) as [r4|] eqn:B; [|discriminate].
      injection H as _ <-. apply after_length in B. lia.
Qed.

(** Two steps of budget for each character are enough. *)
Lemma parse_budget (fuel : nat) :
  (forall s, (2 * String.length s + 1 <= fuel)%nat ->
             parse_value fuel s <> Exhausted)
  /\ (forall s, (2 * String.length s + 2 <= fuel)%nat ->
                parse_elements fuel s <> Exhausted)
  /\ (forall s, (2 * String.length s + 2 <= fuel)%nat ->
                parse_members fuel s <> Exhausted).
Proof.
  induction fuel as [|f [IHv [IHe IHm]]]; [repeat split; intros; lia|].
  destruct (parse_consumes f) as [Cv [Ce Cm]].
  split; [|split].
  - intros s B. simpl. pose proof (skip_ws_length s) as W.
    destruct (skip_ws s) as [|c rest]; [discriminate|]. simpl in W.
    pose proof (skip_ws_length rest) as W'.
    destruct (Ascii.eqb c "[").
    { destruct (after "]" (skip_ws rest)); [discriminate|].
      specialize (IHe (skip_ws rest) ltac:(lia)).
      destruct (parse_elements f (skip_ws rest)); simpl; congruence. }
    destruct (Ascii.eqb c "{").
    { destruct (after "}" (skip_ws rest)); [discriminate|].
      specialize (IHm (skip_ws rest) ltac:(lia)).
      destruct (parse_members f (skip_ws rest)); simpl; congruence. }
    destruct (Ascii.eqb c dquote_char).
    { unfold string_value. destruct (parse_string rest) as [[? ?]|]; discriminate. }
    unfold keyword, number_value.
    destruct (Ascii.eqb c "t"); [destruct (expect _ _); discriminate|].
    destruct (Ascii.eqb c "f"); [destruct (expect _ _); discriminate|].
    destruct (Ascii.eqb c "n"); [destruct (expect _ _); discriminate|].
    destruct (parse_number _) as [[? ?]|]; discriminate.
  - intros s B. simpl. specialize (IHv s ltac:(lia)).
    destruct (parse_value f s) as [v r0| |] eqn:V; [|discriminate|congruence].
    apply Cv in V. pose proof (skip_ws_length r0) as W.
    destruct (after "," (skip_ws r0)) as [r1|] eqn:A.
    + apply after_length in A. specialize (IHe r1 ltac:(lia)).
      destruct (parse_elements f r1); simpl; congruence.
    + destruct (after "]" (skip_ws r0)); discriminate.
  - intros s B. simpl. pose proof (skip_ws_length s) as W.
    destruct (after dquote_char (skip_ws s)) as [r0|] eqn:Q; [|discriminate].
    apply after_length in Q. unfold parse_string.
    destruct (lex_string r0) as [[ps r1]|] eqn:L; [|discriminate].
    apply lex_string_length in L. pose proof (skip_ws_length r1) as W1.
    destruct (after ":" (skip_ws r1)) as [r2|] eqn:C; [|discriminate].
    apply after_length in C. specialize (IHv r2 ltac:(lia)).
    destruct (parse_value f r2) as [v r3| |] eqn:V; [|discriminate|congruence].
    apply Cv in V. pose proof (skip_ws_length r3) as W3.
    destruct (after "," (skip_ws r3)) as [r4|] eqn:A.
    + apply after_length in A. specialize (IHm r4 ltac:(lia)).
      destruct (parse_members f r4); simpl; congruence.
    + destruct (after "}" (skip_ws r3)); discriminate.
Qed.

(** [JSON.parse] decides on the text alone: its budget is never used up. *)
Lemma parse_value_never_exhausted (text : string) :
  parse_value (budget text) text <> Exhausted.
Proof. apply parse_budget. unfold budget. lia. Qed.

End ParserFacts.

(* ===================================================================== *)
(** * How the transport runs *)
(* ===================================================================== *)

Section TransportFacts.

Variable fetch : Request -> outcome Response.

Lemma handle_success (response : Response) (w : World) :
  ok response = true ->
  _handleApiResponse response w
  = (Return response,
     logged ("Got success: " ++ string_of_Z (status response)) w).
Proof. intros H. unfold _handleApiResponse. now rewrite H. Qed.

Lemma handle_failure (response : Response) (w : World) :
  ok response = false ->
  _handleApiResponse response w
  = (Throw (raised response),
     logged ("Got error " ++ string_of_Z (status response) ++ ": "
             ++ body_dump response) w).
Proof.
  intros H. unfold _handleApiResponse, raised. rewrite H.
  unfold bind, logger, lift, throw, logged. cbn beta iota.
  now destruct (error_message (status response) (error_result response)).
Qed.

(** [_fetch] logs the request, hands it to [fetch], and passes the
    response to the handler. *)
Lemma _fetch_run (api : OpenSeaAPI) (apiPath : string) (opts : obj)
    (w : World) :
  _fetch fetch api apiPath opts w
  = match fetch (fetch_request api apiPath opts) with
    | Return response =>
        _handleApiResponse response
          (after_sending (fetch_request api apiPath opts) w)
    | Throw e => (Throw e, after_sending (fetch_request api apiPath opts) w)
    end.
Proof. reflexivity. Qed.

End TransportFacts.

Section QuietFacts.

Lemma quiet_ret {A} (a : A) : quiet (ret a).
Proof. intros w. reflexivity. Qed.

Lemma quiet_lift {A} (o : outcome A) : quiet (lift o).
Proof. intros w. reflexivity. Qed.

Lemma quiet_bind {A B} (m : M A) (k : A -> M B) :
  quiet m -> (forall a, quiet (k a)) -> quiet (bind m k).
Proof.
  intros Hm Hk w. unfold bind. specialize (Hm w).
  destruct (m w) as [[a|e] w']; simpl in Hm; subst w'.
  - apply Hk.
  - reflexivity.
Qed.

(** Whatever a quiet continuation does, the world is the one its
    predecessor left. *)
Lemma world_of_bind_quiet {A B} (m : M A) (k : A -> M B) (w : World) :
  (forall a, quiet (k a)) -> world_of (bind m k w) = world_of (m w).
Proof.
  intros Hk. unfold bind. destruct (m w) as [[a|e] w']; simpl.
  - apply Hk.
  - reflexivity.
Qed.

Lemma quiet_if {A} (b : bool) (m1 m2 : M A) :
  quiet m1 -> quiet m2 -> quiet (if b then m1 else m2).
Proof. now destruct b. Qed.

End QuietFacts.

Create HintDb quiet.
#[local] Hint Resolve quiet_ret quiet_lift : quiet.
#[local] Hint Extern 2 (quiet (bind _ _)) => apply quiet_bind; [|intros ?] : quiet.
#[local] Hint Extern 2 (quiet (if _ then _ else _)) => apply quiet_if : quiet.

Section GetFacts.

Variable fetch : Request -> outcome Response.
Variable QueryString_stringify : obj -> string.

Lemma get_run (api : OpenSeaAPI) (apiPath : string) (query : obj) (w : World) :
  get fetch QueryString_stringify api apiPath query w
  = match fetch (get_request QueryString_stringify api apiPath query) with
    | Return response =>
        _handleApiResponse response
          (after_sending (get_request QueryString_stringify api apiPath query) w)
    | Throw e =>
        (Throw e,
         after_sending (get_request QueryString_stringify api apiPath query) w)
    end.
Proof. reflexivity. Qed.

(** A successful response comes back from [get] untouched. *)
Lemma get_success (api : OpenSeaAPI) (apiPath : string) (query : obj)
    (w : World) (response : Response) :
  fetch (get_request QueryString_stringify api apiPath query) = Return response ->
  ok response = true ->
  result_of (get fetch QueryString_stringify api apiPath query w)
  = Return response.
Proof.
  intros F K. rewrite get_run, F, (handle_success _ _ K). reflexivity.
Qed.

(** A failed response leaves [get] as the exception built from it. *)
Lemma get_failure (api : OpenSeaAPI) (apiPath : string) (query : obj)
    (w : World) (response : Response) :
  fetch (get_request QueryString_stringify api apiPath query) = Return response ->
  ok response = false ->
  result_of (get fetch QueryString_stringify api apiPath query w)
  = Throw (raised response).
Proof.
  intros F K. rewrite get_run, F, (handle_failure _ _ K). reflexivity.
Qed.



(** The result of a method that decodes what [get] returned. *)
Lemma result_of_bind_get {A} (api : OpenSeaAPI) (apiPath : string)
    (query : obj) (k : Response -> M A) (w : World) (response : Response) :
  fetch (get_request QueryString_stringify api apiPath query) = Return response ->
  ok response = true ->
  exists w',
    bind (get fetch QueryString_stringify api apiPath query) k w
    = k response w'.
Proof.
  intros F K. unfold bind. rewrite get_run, F, (handle_success _ _ K).
  eexists. reflexivity.
Qed.

Lemma result_of_bind_get_failure {A} (api : OpenSeaAPI) (apiPath : string)
    (query : obj) (k : Response -> M A) (w : World) (response : Response) :
  fetch (get_request QueryString_stringify api apiPath query) = Return response ->
  ok response = false ->
  result_of (bind (get fetch QueryString_stringify api apiPath query) k w)
  = Throw (raised response).
Proof.
  intros F K. unfold bind. rewrite get_run, F, (handle_failure _ _ K).
  reflexivity.
Qed.

End GetFacts.

Lemma Response_json_body (response : Response) (text : string) :
  body response = Some text -> Response_json response = JSON.parse text.
Proof. intros H. unfold Response_json, Response_text. now rewrite H. Qed.

(** Runs a method up to the point where it holds the decoded body of a
    successful response [F : fetch _ = Return r], [K : ok r = true],
    [B : body r = Some text]. *)
Ltac decode_success F K B :=
  unfold result_of, bind, lift, ret;
  rewrite get_run, F, (handle_success _ _ K), ?(Response_json_body _ _ B);
  cbn beta iota.

(* ===================================================================== *)
(** * The orderbook operations *)
(* ===================================================================== *)

Section OrderbookProperties.

Variable fetch : Request -> outcome Response.
Variable QueryString_stringify : obj -> string.
Variables Order OpenSeaAsset OpenSeaAssetBundle FungibleToken : Type.
Variable orderFromJSON : value -> outcome Order.
Variable assetFromJSON : value -> outcome OpenSeaAsset.
Variable assetBundleFromJSON : value -> outcome OpenSeaAssetBundle.
Variable tokenFromJSON : value -> outcome FungibleToken.

(** C1.  [getOrders] decodes the response by the orderbook version alone.
    With version 0 a bare array of order records gives the normalized
    orders and the length of the array as count; with any other version
    an object [{orders, count}] gives the normalized orders and the
    [count] member as it came.  The payload is never inspected to choose:
    a payload of the other shape raises a [TypeError]. *)
Theorem getOrders_schema_follows_version
    (version : Z) (api : OpenSeaAPI) (query : obj) (page : Z) (w : World)
    (response : Response) (text : string) :
  fetch (get_request QueryString_stringify api
           (ORDERBOOK_PATH version ++ "/orders") (paged_query api query page))
  = Return response ->
  ok response = true ->
  body response = Some text ->
  let result :=
    result_of (getOrders fetch QueryString_stringify orderFromJSON version
                 api query page w) in
  (version = 0 ->
     (forall records normalized,
        JSON.parse text = Return (VArr records) ->
        map_outcome orderFromJSON records = Return normalized ->
        result = Return {| orders := normalized;
                           count := VInt (Z.of_nat (List.length records)) |})
     /\ (forall payload,
           JSON.parse text = Return (VObj payload) ->
           exists message, result = Throw (TypeError message)))
  /\ (version <> 0 ->
        (forall payload records normalized,
           JSON.parse text = Return (VObj payload) ->
           obj_get "orders" payload = Some (VArr records) ->
           map_outcome orderFromJSON records = Return normalized ->
           result = Return {| orders := normalized;
                              count := prop "count" payload |})
        /\ (forall records,
              JSON.parse text = Return (VArr records) ->
              exists message, result = Throw (TypeError message))).
Proof.
  intros F K B result. subst result. unfold getOrders. decode_success F K B.
  split; intros V.
  - subst version. simpl (0 =? 0). cbv iota. split.
    + intros records normalized P N. rewrite P. simpl. now rewrite N.
    + intros payload P. rewrite P. simpl. eauto.
  - apply Z.eqb_neq in V. rewrite V. split.
    + intros payload records normalized P O N. rewrite P. simpl.
      unfold prop. rewrite O. simpl. now rewrite N.
    + intros records P. rewrite P. simpl. eauto.
Qed.

(** C3.  When the server answers successfully with no matching order
    (the empty array under version 0, an empty [orders] list under any
    other version), [getOrder] returns [null]: neither an exception nor
    an empty array. *)
Theorem getOrder_null_on_zero_matches
    (version : Z) (api : OpenSeaAPI) (query : obj) (w : World)
    (response : Response) (text : string) :
  fetch (get_request QueryString_stringify api
           (ORDERBOOK_PATH version ++ "/orders") query)
  = Return response ->
  ok response = true ->
  body response = Some text ->
  let result :=
    result_of (getOrder fetch QueryString_stringify orderFromJSON version
                 api query w) in
  (version = 0 -> JSON.parse text = Return (VArr []) -> result = Return None)
  /\ (version <> 0 ->
        forall payload,
          JSON.parse text = Return (VObj payload) ->
          obj_get "orders" payload = Some (VArr []) ->
          result = Return None).
Proof.
  intros F K B result. subst result. unfold getOrder. decode_success F K B.
  split; intros V.
  - subst version. intros P. simpl (0 =? 0). cbv iota. now rewrite P.
  - apply Z.eqb_neq in V. rewrite V. intros payload P O.
    rewrite P. simpl. now rewrite O.
Qed.


End OrderbookProperties.

(* ===================================================================== *)
(** * The transport: headers and methods *)
(* ===================================================================== *)

Section AssignFacts.

Implicit Types (k : string) (v : value) (o l : obj).

Lemma has_key_replace k k' v (kv : string * value) :
  has_key k (if has_key k' kv then (fst kv, v) else kv) = has_key k kv.
Proof. now destruct (has_key k' kv). Qed.

Lemma existsb_replace k k' v o :
  existsb (has_key k) (map (fun kv => if has_key k' kv then (fst kv, v) else kv) o)
  = existsb (has_key k) o.
Proof.
  induction o as [|kv o IH]; simpl; [reflexivity|].
  now rewrite has_key_replace, IH.
Qed.

Lemma obj_has_set k k' v o :
  obj_has k (obj_set k' v o) = has_key k (k', v) || obj_has k o.
Proof.
  unfold obj_set. rewrite !obj_has_existsb.
  destruct (existsb (has_key k') o) eqn:H.
  - rewrite existsb_replace. change (has_key k (k', v)) with (k' =? k)%string.
    destruct (String.eqb_spec k' k) as [->|N]; [|reflexivity].
    now rewrite H.
  - rewrite existsb_app. simpl. rewrite orb_false_r. apply orb_comm.
Qed.

Lemma obj_has_assign k o l :
  obj_has k (assign o l) = existsb (has_key k) l || obj_has k o.
Proof.
  unfold assign. revert o. induction l as [|[a b] l IH]; intros o; simpl.
  - reflexivity.
  - rewrite IH, obj_has_set. simpl.
    now destruct (has_key k (a, b)), (existsb (has_key k) l), (obj_has k o).
Qed.

(** Setting two different keys, one of them already there, in either
    order. *)
Lemma obj_set_comm k k' v v' o :
  k <> k' -> obj_has k o = true ->
  obj_set k' v' (obj_set k v o) = obj_set k v (obj_set k' v' o).
Proof.
  intros N H.
  assert (E : forall kv : string * value,
             has_key k kv = true -> has_key k' kv = false).
  { intros kv A. unfold has_key in *. apply String.eqb_eq in A.
    apply String.eqb_neq. congruence. }
  unfold obj_set at 2 4. rewrite H.
  unfold obj_set. rewrite !obj_has_existsb, existsb_replace.
  rewrite obj_has_existsb in H.
  destruct (existsb (has_key k') o) eqn:H'.
  - rewrite existsb_replace, H, !map_map. apply map_ext.
    intros kv. rewrite !has_key_replace.
    destruct (has_key k kv) eqn:A, (has_key k' kv) eqn:B; simpl;
      try reflexivity.
    rewrite (E kv A) in B. discriminate.
  - rewrite existsb_app, H. simpl. rewrite map_app. simpl.
    unfold has_key at 3. simpl.
    destruct (String.eqb_spec k' k) as [X|_]; [congruence | reflexivity].
Qed.

Lemma assign_set_comm k v o l :
  obj_has k o = true -> existsb (has_key k) l = false ->
  assign (obj_set k v o) l = obj_set k v (assign o l).
Proof.
  unfold assign. revert o. induction l as [|[a b] l IH]; intros o H F; simpl.
  - reflexivity.
  - simpl in F. apply orb_false_iff in F as [F1 F2].
    unfold has_key in F1; simpl in F1. apply String.eqb_neq in F1.
    rewrite obj_set_comm by (auto || congruence).
    apply IH; [|exact F2]. rewrite obj_has_set, H. apply orb_true_r.
Qed.

Lemma assign_app o l1 l2 :
  assign o (l1 ++ l2)%list = assign (assign o l1) l2.
Proof. unfold assign. apply fold_left_app. Qed.

(** A property in front of the target that the source does not mention
    stays in front. *)
Lemma assign_cons_fresh (x : string * value) o l :
  existsb (has_key (fst x)) l = false ->
  assign (x :: o) l = x :: assign o l.
Proof.
  unfold assign. revert o. induction l as [|[a b] l IH]; intros o F; simpl.
  - reflexivity.
  - simpl in F. apply orb_false_iff in F as [F1 F2].
    rewrite <- (IH _ F2). f_equal.
    unfold obj_set. rewrite !obj_has_existsb. simpl.
    unfold has_key at 1. simpl.
    unfold has_key in F1; simpl in F1.
    rewrite (String.eqb_sym (fst x) a), F1. simpl.
    destruct (existsb (has_key a) o); [|reflexivity].
    simpl. unfold has_key at 1. rewrite (String.eqb_sym (fst x) a), F1.
    reflexivity.
Qed.

Lemma index_props_app_named (x : string * value) o :
  array_index (fst x) = None -> index_props (o ++ [x])%list = index_props o.
Proof.
  intros K. induction o as [|kv o IH]; simpl.
  - now rewrite K.
  - now rewrite IH.
Qed.

Lemma own_props_cons_named (x : string * value) o :
  array_index (fst x) = None ->
  own_props (x :: o) = (map snd (index_props o) ++ x :: named_props o)%list.
Proof. intros K. unfold own_props, named_props. simpl. now rewrite K. Qed.

Lemma own_props_app_named (x : string * value) o :
  array_index (fst x) = None ->
  own_props (o ++ [x])%list
  = (map snd (index_props o) ++ named_props o ++ [x])%list.
Proof.
  intros K. unfold own_props, named_props.
  rewrite index_props_app_named by exact K.
  rewrite filter_app. simpl. now rewrite K.
Qed.

Lemma existsb_named_props k o :
  existsb (has_key k) o = false -> existsb (has_key k) (named_props o) = false.
Proof.
  unfold named_props. induction o as [|kv o IH]; simpl; [reflexivity|].
  intros H. apply orb_false_iff in H as [H1 H2].
  destruct (array_index (fst kv)); simpl; [now apply IH|].
  now rewrite H1, IH.
Qed.

End AssignFacts.

Section TransportProperties.

Variable fetch : Request -> outcome Response.

(** [_fetch] issues exactly one request, whatever comes back. *)
Lemma _fetch_sent (api : OpenSeaAPI) (apiPath : string) (opts : obj)
    (w : World) :
  sent (world_of (_fetch fetch api apiPath opts w))
  = (sent w ++ [fetch_request api apiPath opts])%list.
Proof.
  rewrite _fetch_run.
  destruct (fetch _) as [response|e]; [|reflexivity].
  destruct (ok response) eqn:K.
  - now rewrite (handle_success _ _ K).
  - now rewrite (handle_failure _ _ K).
Qed.

Lemma key_is_no_index : array_index "X-API-KEY" = None.
Proof. reflexivity. Qed.

Lemma method_is_no_index : array_index "method" = None.
Proof. reflexivity. Qed.

(** The key header of the outgoing request: the caller's when there is
    one, else the client's own when it has a non-empty key. *)
Lemma request_key_header (api : OpenSeaAPI) (apiPath : string) (opts : obj) :
  request_header "X-API-KEY" (fetch_request api apiPath opts)
  = match caller_header "X-API-KEY" opts with
    | Some mine => Some mine
    | None =>
        match apiKey api with
        | Some k => if (k =? "")%string then None else Some (VStr k)
        | None => None
        end
    end.
Proof.
  unfold request_header, fetch_request, finalOpts, caller_header. simpl init.
  rewrite prop_set_same. unfold final_headers. rewrite obj_get_assign.
  destruct (obj_get "X-API-KEY" (spread_props _)); [reflexivity|].
  destruct (apiKey api) as [k|]; simpl; [|reflexivity].
  now destruct (k =? "")%string.
Qed.

(** Options other than the headers reach [fetch] as the caller gave
    them. *)
Lemma request_keeps_option (api : OpenSeaAPI) (apiPath : string)
    (opts : obj) (k : string) :
  k <> "headers" -> array_index k = None ->
  obj_get k (init (fetch_request api apiPath opts)) = obj_get k opts.
Proof.
  intros N K. unfold fetch_request, finalOpts. simpl init.
  rewrite obj_get_set_other by exact N. now apply obj_get_spread.
Qed.

(** The constructor keeps the key of the configuration. *)
Lemma new_OpenSeaAPI_apiKey (config : OpenSeaAPIConfig) :
  apiKey (new_OpenSeaAPI config) = config_apiKey config.
Proof.
  unfold new_OpenSeaAPI. now destruct (config_networkName config) as [[|]|].
Qed.

(** A named header of the outgoing request: the caller's when there is
    one; else, for the key header only, the client's own. *)
Lemma request_header_named (api : OpenSeaAPI) (apiPath : string) (opts : obj)
    (name : string) :
  array_index name = None ->
  request_header name (fetch_request api apiPath opts)
  = match caller_header name opts with
    | Some mine => Some mine
    | None => obj_get name (key_headers api)
    end.
Proof.
  intros K. unfold request_header, fetch_request, finalOpts, caller_header.
  simpl init. rewrite prop_set_same. unfold final_headers, key_headers.
  rewrite obj_get_assign.
  destruct (obj_get name (spread_props _)); [reflexivity|].
  destruct (apiKey api) as [k|]; simpl; [|reflexivity].
  destruct (k =? "")%string; [reflexivity|].
  cbn [negb]. now rewrite obj_get_spread.
Qed.

Lemma key_headers_other (api : OpenSeaAPI) (name : string) :
  name <> "X-API-KEY" -> obj_get name (key_headers api) = None.
Proof.
  intros N. unfold key_headers. destruct (apiKey api) as [k|]; [|reflexivity].
  destruct (k =? "")%string; [reflexivity|]. simpl.
  apply String.eqb_neq in N. now rewrite N.
Qed.

(** The keys a spread array brings are its indices: digits only. *)
Lemma all_digits_string_of_uint (d : Decimal.uint) :
  all_digits (NilEmpty.string_of_uint d) = true.
Proof. induction d; simpl; auto. Qed.

Lemma all_digits_string_of_Z (i : Z) : 0 <= i -> all_digits (string_of_Z i) = true.
Proof.
  intros H. unfold string_of_Z, NilZero.string_of_int.
  destruct i as [|p|p]; [reflexivity| |lia].
  simpl. unfold NilZero.string_of_uint.
  destruct (Pos.to_uint p); try reflexivity; apply all_digits_string_of_uint.
Qed.

Lemma obj_get_indexed_from {A} (f : A -> value) (i : Z) (l : list A)
    (name : string) :
  0 <= i -> all_digits name = false -> obj_get name (indexed_from f i l) = None.
Proof.
  intros I D. revert i I. induction l as [|x l IH]; intros i I; simpl;
    [reflexivity|].
  rewrite IH by lia.
  destruct (String.eqb_spec name (string_of_Z i)) as [E|_]; [|reflexivity].
  rewrite E, all_digits_string_of_Z in D by exact I. discriminate.
Qed.

(** Headers given as a list of pairs bring no header of any name. *)
Lemma caller_header_pairs (opts : obj) (pairs : list value) (name : string) :
  prop "headers" opts = VArr pairs -> all_digits name = false ->
  caller_header name opts = None.
Proof.
  intros H D. unfold caller_header. rewrite H. simpl.
  now apply obj_get_indexed_from.
Qed.

Lemma no_digits_no_index (name : string) :
  all_digits name = false -> array_index name = None.
Proof.
  intros D. unfold array_index. destruct name as [|c rest]; [reflexivity|].
  now rewrite D.
Qed.

(** C10, amended.  In [_fetch] the caller's headers are merged after the
    key header when they come as a plain object: every named header of
    [opts.headers] is the one the request carries, so an [X-API-KEY] entry
    there replaces the key the client was configured with, and the
    configured key is sent when the object names none.  Headers that come
    as a list of pairs are spread by index: an [X-API-KEY] pair among them
    replaces nothing, and the request carries the configured key.  The
    other options reach [fetch] as given. *)
Theorem caller_key_header_overrides_configured
    (api : OpenSeaAPI) (apiPath : string) (opts : obj) (w : World) :
  exists r,
    sent (world_of (_fetch fetch api apiPath opts w)) = (sent w ++ [r])%list
    /\ url r = apiBaseUrl api ++ apiPath
    /\ (forall headers name,
          prop "headers" opts = VObj headers -> array_index name = None ->
          request_header name r
          = match obj_get name headers with
            | Some mine => Some mine
            | None => obj_get name (key_headers api)
            end)
    /\ (forall pairs,
          prop "headers" opts = VArr pairs ->
          request_header "X-API-KEY" r = obj_get "X-API-KEY" (key_headers api))
    /\ (forall k, k <> "headers" -> array_index k = None ->
                  obj_get k (init r) = obj_get k opts).
Proof.
  exists (fetch_request api apiPath opts).
  split; [apply _fetch_sent|]. split; [reflexivity|]. split; [|split].
  - intros headers name H K. rewrite request_header_named by exact K.
    unfold caller_header. rewrite H. simpl.
    now rewrite obj_get_own_props by exact K.
  - intros pairs H. rewrite request_header_named by reflexivity.
    now rewrite (caller_header_pairs _ _ _ H).
  - intros k. apply request_keeps_option.
Qed.

(** The key header [_fetch] sends when the caller brings none. *)
Lemma fetch_key_header (api : OpenSeaAPI) (apiPath : string) (opts : obj)
    (w : World) :
  caller_header "X-API-KEY" opts = None ->
  exists r,
    sent (world_of (_fetch fetch api apiPath opts w)) = (sent w ++ [r])%list
    /\ request_header "X-API-KEY" r
       = match apiKey api with
         | Some k => if (k =? "")%string then None else Some (VStr k)
         | None => None
         end.
Proof.
  intros C. exists (fetch_request api apiPath opts).
  split; [apply _fetch_sent|]. now rewrite request_key_header, C.
Qed.

(** The headers [post] and [put] pass on are the caller's when there are
    any, else the two JSON headers: no key header is added on the way. *)
Lemma caller_header_post (body : value) (opts : obj) :
  caller_header "X-API-KEY" (post_fetchOpts body opts)
  = caller_header "X-API-KEY" opts.
Proof.
  unfold caller_header, prop, post_fetchOpts.
  rewrite obj_get_assign. simpl spread_props.
  rewrite obj_get_own_props by reflexivity.
  now destruct (obj_get "headers" opts).
Qed.

Lemma caller_header_put (opts : obj) :
  caller_header "X-API-KEY"
    (assign [("method", VStr "PUT")] (spread_props (VObj opts)))
  = caller_header "X-API-KEY" opts.
Proof.
  unfold caller_header, prop.
  rewrite obj_get_assign. simpl spread_props.
  rewrite obj_get_own_props by reflexivity.
  now destruct (obj_get "headers" opts).
Qed.

(** C9, amended.  A request for which the caller supplies no
    [X-API-KEY] header of its own carries that header exactly when the
    client was constructed with a non-empty key, and then with the
    configured value: so it is for every request of [get], and for the
    requests of [post] and [put] whose options bring no such header.  The
    client is the one the constructor builds from the configuration. *)
Theorem key_header_iff_configured
    (QueryString_stringify : obj -> string)
    (config : OpenSeaAPIConfig) (apiPath : string)
    (query : obj) (body : value) (opts : obj) (w : World) :
  let api := new_OpenSeaAPI config in
  let carries (after : World) :=
    exists r,
      sent after = (sent w ++ [r])%list
      /\ request_header "X-API-KEY" r = option_map VStr (configured_key config) in
  carries (world_of (get fetch QueryString_stringify api apiPath query w))
  /\ (caller_header "X-API-KEY" opts = None ->
      carries (world_of (_fetch fetch api apiPath opts w))
      /\ carries (world_of (post fetch api apiPath body opts w))
      /\ carries (world_of (put fetch api apiPath body opts w))).
Proof.
  intros api carries.
  assert (E : match apiKey api with
              | Some k => if (k =? "")%string then None else Some (VStr k)
              | None => None
              end = option_map VStr (configured_key config)).
  { subst api. rewrite new_OpenSeaAPI_apiKey. unfold configured_key.
    destruct (config_apiKey config) as [k|]; [|reflexivity].
    now destruct (k =? "")%string. }
  subst carries. cbv beta. rewrite <- E. split; [|intros C; split; [|split]].
  - unfold get. now apply fetch_key_header.
  - now apply fetch_key_header.
  - unfold post. apply fetch_key_header. now rewrite caller_header_post.
  - unfold put, post. apply fetch_key_header.
    now rewrite caller_header_post, caller_header_put.
Qed.

(** The options [post] builds bind [method] before anything the caller
    passes. *)
Lemma post_fetchOpts_method (body : value) (opts : obj) :
  obj_get "method" (post_fetchOpts body opts)
  = match obj_get "method" opts with
    | Some m => Some m
    | None => Some (VStr "POST")
    end.
Proof.
  unfold post_fetchOpts. rewrite obj_get_assign. simpl spread_props.
  rewrite obj_get_own_props by reflexivity.
  now destruct (obj_get "method" opts).
Qed.

(** With no method among the caller's options, putting PUT first or
    last gives [post] the same options. *)
Lemma post_fetchOpts_put (body : value) (opts : obj) :
  obj_get "method" opts = None ->
  post_fetchOpts body (assign [("method", VStr "PUT")] (spread_props (VObj opts)))
  = post_fetchOpts body (obj_set "method" (VStr "PUT") (spread (VObj opts))).
Proof.
  intros H. simpl spread_props.
  assert (P : existsb (has_key "method") (own_props opts) = false).
  { apply obj_get_none. now rewrite obj_get_own_props. }
  assert (R : obj_has "method" (spread (VObj opts)) = false).
  { unfold spread. simpl spread_props. rewrite obj_has_assign, P. reflexivity. }
  rewrite (assign_cons_fresh ("method", VStr "PUT")) by exact P.
  unfold obj_set at 1. rewrite R.
  unfold post_fetchOpts. simpl spread_props. unfold spread. simpl spread_props.
  set (rest := assign [] (own_props opts)) in *.
  rewrite own_props_cons_named, own_props_app_named by reflexivity.
  rewrite !assign_app.
  set (base := assign _ (map snd (index_props rest))).
  assert (B : obj_has "method" base = true).
  { subst base. rewrite obj_has_assign. apply orb_true_r. }
  assert (F : existsb (has_key "method") (named_props rest) = false).
  { apply existsb_named_props. now rewrite <- obj_has_existsb. }
  change (assign base (("method", VStr "PUT") :: named_props rest))
    with (assign (obj_set "method" (VStr "PUT") base) (named_props rest)).
  rewrite assign_set_comm by assumption. reflexivity.
Qed.

(** C8, amended.  [put] has no code path of its own: it is [post] on the
    caller's options with PUT put in as the method first.  When the
    options name no method this is [post] with the method set to PUT;
    when they name one, that one is the method of the request. *)
Theorem put_is_post_with_PUT_as_default
    (api : OpenSeaAPI) (apiPath : string) (body : value) (opts : obj)
    (w : World) :
  (obj_get "method" opts = None ->
     put fetch api apiPath body opts w = put_spec fetch api apiPath body opts w)
  /\ (forall m, obj_get "method" opts = Some m ->
        exists r,
          sent (world_of (put fetch api apiPath body opts w))
          = (sent w ++ [r])%list
          /\ request_method r = m).
Proof.
  split.
  - intros H. unfold put, put_spec, post. now rewrite post_fetchOpts_put.
  - intros m H. unfold put, post. eexists. split; [apply _fetch_sent|].
    unfold request_method, prop.
    rewrite request_keeps_option by (reflexivity || discriminate).
    rewrite post_fetchOpts_method, obj_get_assign. simpl spread_props.
    rewrite obj_get_own_props by reflexivity. now rewrite H.
Qed.

End TransportProperties.

(* ===================================================================== *)
(** * The transport: failed responses *)
(* ===================================================================== *)

Section FailureProperties.

Lemma not_ok_404 (response : Response) : status response = 404 -> ok response = false.
Proof. intros H. unfold ok. now rewrite H. Qed.

Lemma not_ok_400 (response : Response) : status response = 400 -> ok response = false.
Proof. intros H. unfold ok. now rewrite H. Qed.

(** A body that is not an object has no [errors]: the test
    [result && result.errors] is falsy. *)
Lemma result_errors_falsy (result : value) :
  (forall payload, result = VObj payload ->
                   truthy (prop "errors" payload) = false) ->
  exists errors, result_errors result = Return errors /\ truthy errors = false.
Proof.
  intros H. unfold result_errors. destruct (truthy result) eqn:T.
  - destruct result as [| |b|n|s|l|payload]; simpl in T |- *;
      try discriminate; try (eexists; split; reflexivity).
    exists (prop "errors" payload). split; [reflexivity | now apply H].
  - now exists result.
Qed.

(** Outside the joined list of a 400, every message ends with the dump
    of the decoded body. *)
Lemma error_message_embeds_dump (code : Z) (result : value) :
  (code = 400 ->
     exists errors, result_errors result = Return errors /\ truthy errors = false) ->
  exists message,
    error_message code result = Return message
    /\ Embeds (template (JSON.stringify result)) message.
Proof.
  intros H. unfold error_message.
  destruct (Z.eqb_spec code 400) as [E|_].
  - destruct (H E) as [errors [-> T]]. unfold obind. rewrite T.
    eexists. split; [reflexivity|].
    exact (Embeds_suffix "Invalid request: " _).
  - destruct ((code =? 401) || (code =? 403)); [|destruct (code =? 404);
      [|destruct (code =? 500)]];
      (eexists; split; [reflexivity|]).
    + exact (Embeds_middle "Unauthorized. Full message was '" _ "'").
    + exact (Embeds_middle "Not found. Full message was '" _ "'").
    + apply Embeds_append_r. exact (Embeds_suffix "" _).
    + apply Embeds_append_r, Embeds_append_r, Embeds_append_r.
      exact (Embeds_suffix "" _).
Qed.

(** C4, amended.  For a failed response whose body is not JSON the parse
    failure is swallowed and the handler goes on with the body text
    itself: the message of the error it raises embeds that text as a JSON
    string.  The decoded body is [undefined] only when the body cannot be
    read.  In both cases the caller gets the raised error, never the
    response. *)
Theorem unparseable_error_body_is_kept_as_text
    (response : Response) (w : World) :
  ok response = false ->
  (forall text e,
     body response = Some text -> JSON.parse text = Throw e ->
     error_result response = VStr text
     /\ exists message,
          result_of (_handleApiResponse response w)
          = Throw (Error ("API Error: " ++ message))
          /\ Embeds (JSON.quote text) message)
  /\ (body response = None ->
      error_result response = VUndefined
      /\ exists message,
           result_of (_handleApiResponse response w)
           = Throw (Error ("API Error: " ++ message))
           /\ Embeds "undefined" message).
Proof.
  intros K. rewrite (handle_failure _ _ K). unfold result_of, fst, raised.
  split.
  - intros text e B P.
    assert (R : error_result response = VStr text).
    { unfold error_result, Response_text. now rewrite B, P. }
    split; [exact R|]. rewrite R.
    destruct (error_message_embeds_dump (status response) (VStr text))
      as [message [-> E]].
    { intros _. apply result_errors_falsy. discriminate. }
    now exists message.
  - intros B.
    assert (R : error_result response = VUndefined).
    { unfold error_result, Response_text. now rewrite B. }
    split; [exact R|]. rewrite R.
    destruct (error_message_embeds_dump (status response) VUndefined)
      as [message [-> E]].
    { intros _. apply result_errors_falsy. discriminate. }
    now exists message.
Qed.

(** Strings join as they are. *)
Lemma array_join_strings (sep : string) (texts : list string) :
  array_join sep (map VStr texts) = Return (join_strings sep texts).
Proof.
  unfold array_join.
  assert (M : map_outcome join_element (map VStr texts) = Return texts).
  { induction texts as [|t texts IH]; simpl; [reflexivity|]. now rewrite IH. }
  now rewrite M.
Qed.

(** With a list under [errors], the message of a 400 is what [join]
    gives. *)
Lemma error_message_joined (payload : obj) (errors : list value) :
  obj_get "errors" payload = Some (VArr errors) ->
  error_message 400 (VObj payload) = array_join ", " errors.
Proof.
  intros E. unfold error_message, result_errors, get_prop. simpl.
  now rewrite E.
Qed.

(** C5, amended.  For a response with status 400: when the JSON body is
    an object whose [errors] member is a list, and the elements of the list
    can be converted to strings, the message of the raised error is that
    list joined with [", "]; so it is for every list of strings.  When the
    decoded body has no [errors] member, or a falsy one, or is no object at
    all, the message is [Invalid request: ] followed by the dump of the
    body. *)
Theorem invalid_request_message_from_errors
    (response : Response) (w : World) :
  status response = 400 ->
  (forall text payload errors,
     body response = Some text ->
     JSON.parse text = Return (VObj payload) ->
     obj_get "errors" payload = Some (VArr errors) ->
     (forall joined,
        array_join ", " errors = Return joined ->
        result_of (_handleApiResponse response w)
        = Throw (Error ("API Error: " ++ joined)))
     /\ (forall texts,
           errors = map VStr texts ->
           result_of (_handleApiResponse response w)
           = Throw (Error ("API Error: " ++ join_strings ", " texts))))
  /\ ((forall payload, error_result response = VObj payload ->
                       truthy (prop "errors" payload) = false) ->
      result_of (_handleApiResponse response w)
      = Throw (Error ("API Error: Invalid request: " ++ body_dump response))).
Proof.
  intros S. rewrite (handle_failure _ _ (not_ok_400 _ S)).
  unfold result_of, fst, raised. rewrite S. split.
  - intros text payload errors B P E.
    assert (R : error_result response = VObj payload).
    { unfold error_result, Response_text. now rewrite B, P. }
    rewrite R, (error_message_joined _ _ E). split.
    + intros joined J. now rewrite J.
    + intros texts ->. now rewrite array_join_strings.
  - intros H. destruct (result_errors_falsy _ H) as [errors [R T]].
    unfold error_message. simpl (400 =? 400). cbv iota.
    rewrite R. unfold obind. now rewrite T.
Qed.

(** C6, amended.  For every response with status 404, whatever its body,
    the handler raises an error whose message is
    [API Error: Not found. Full message was '...'] around the dump of the
    decoded body: the JSON text of the parsed body, or of the body text
    when it is not JSON. *)
Theorem not_found_message_embeds_body_dump
    (response : Response) (w : World) :
  status response = 404 ->
  let message :=
    "API Error: Not found. Full message was '" ++ body_dump response ++ "'" in
  result_of (_handleApiResponse response w) = Throw (Error message)
  /\ Embeds "Not found" message
  /\ Embeds (body_dump response) message.
Proof.
  intros S message. rewrite (handle_failure _ _ (not_ok_404 _ S)).
  unfold result_of, fst, raised. rewrite S. split; [reflexivity|]. split.
  - subst message. now exists "API Error: ",
      (". Full message was '" ++ body_dump response ++ "'").
  - subst message. apply (Embeds_middle _ _ "'").
Qed.

End FailureProperties.

(* ===================================================================== *)
(** * Single assets and bundles *)
(* ===================================================================== *)

Section LookupProperties.

Variable fetch : Request -> outcome Response.
Variable QueryString_stringify : obj -> string.
Variables OpenSeaAsset OpenSeaAssetBundle : Type.
Variable assetFromJSON : value -> outcome OpenSeaAsset.
Variable assetBundleFromJSON : value -> outcome OpenSeaAssetBundle.

(** X21.  When the server answers successfully with an empty JSON body
    ([null], or another falsy value), [getAsset] and [getBundle] return
    [null] and raise nothing. *)
Theorem lookups_null_on_empty_success
    (version : Z) (api : OpenSeaAPI) (tokenAddress : string)
    (tokenId : token_id) (slug : string) (w : World) (response : Response) :
  ok response = true ->
  forall text json,
    body response = Some text ->
    JSON.parse text = Return json ->
    truthy json = false ->
    (fetch (get_request QueryString_stringify api
              (API_PATH version ++ "/asset/" ++ tokenAddress ++ "/"
               ++ token_id_text tokenId) []) = Return response ->
     result_of (getAsset fetch QueryString_stringify assetFromJSON version
                  api tokenAddress tokenId w)
     = Return None)
    /\ (fetch (get_request QueryString_stringify api
                 (API_PATH version ++ "/bundle/" ++ slug ++ "/") [])
        = Return response ->
        result_of (getBundle fetch QueryString_stringify assetBundleFromJSON
                     version api slug w)
        = Return None).
Proof.
  intros K text json B P T. split; intros F.
  - unfold getAsset. decode_success F K B. rewrite P.
    unfold normalize_or_null. now rewrite T.
  - unfold getBundle. decode_success F K B. rewrite P.
    unfold normalize_or_null. now rewrite T.
Qed.

(** X22.  A failure status makes [getOrder], [getAsset] and [getBundle]
    raise what the handler builds from the response, whatever the status
    says: a 404 is no exception to that. *)
Theorem lookups_raise_on_failure
    (Order : Type) (orderFromJSON : value -> outcome Order)
    (version : Z) (api : OpenSeaAPI) (query : obj) (tokenAddress : string)
    (tokenId : token_id) (slug : string) (w : World) (response : Response) :
  ok response = false ->
  (fetch (get_request QueryString_stringify api
            (ORDERBOOK_PATH version ++ "/orders") query) = Return response ->
   result_of (getOrder fetch QueryString_stringify orderFromJSON version api
                query w)
   = Throw (raised response))
  /\ (fetch (get_request QueryString_stringify api
               (API_PATH version ++ "/asset/" ++ tokenAddress ++ "/"
                ++ token_id_text tokenId) []) = Return response ->
      result_of (getAsset fetch QueryString_stringify assetFromJSON version
                   api tokenAddress tokenId w)
      = Throw (raised response))
  /\ (fetch (get_request QueryString_stringify api
               (API_PATH version ++ "/bundle/" ++ slug ++ "/") [])
      = Return response ->
      result_of (getBundle fetch QueryString_stringify assetBundleFromJSON
                   version api slug w)
      = Throw (raised response)).
Proof.
  intros K. split; [|split]; intros F.
  - unfold getOrder. now apply result_of_bind_get_failure.
  - unfold getAsset. now apply result_of_bind_get_failure.
  - unfold getBundle. now apply result_of_bind_get_failure.
Qed.

End LookupProperties.

(* ===================================================================== *)
(** * The properties at work *)
(* ===================================================================== *)

(** The legacy page under version 0 and the versioned page under the
    shipped version. *)
Lemma getOrders_schema_follows_version_witness :
  result_of (run (getOrders (always legacy_page) QueryString.stringify
                    keep_json 0 anonymous_api [] 1))
  = Return {| orders := [order_json]; count := VInt 1 |}
  /\ result_of (run (getOrders (always versioned_page) QueryString.stringify
                       keep_json ORDERBOOK_VERSION anonymous_api [] 1))
     = Return {| orders := [order_json]; count := VInt 57 |}.
Proof.
  split.
  - destruct (getOrders_schema_follows_version (always legacy_page)
                QueryString.stringify value keep_json 0 anonymous_api [] 1
                empty_world legacy_page _ eq_refl eq_refl eq_refl) as [L _].
    destruct (L eq_refl) as [A _].
    apply (A [order_json] [order_json]); reflexivity.
  - destruct (getOrders_schema_follows_version (always versioned_page)
                QueryString.stringify value keep_json ORDERBOOK_VERSION
                anonymous_api [] 1 empty_world versioned_page _
                eq_refl eq_refl eq_refl) as [_ V].
    assert (N : ORDERBOOK_VERSION <> 0) by discriminate.
    destruct (V N) as [A _].
    apply (A [("orders", VArr [order_json]); ("count", VInt 57)]
             [order_json] [order_json]); reflexivity.
Defined.



(** Page 1 asks for offset 0, page 3 of size 20 for offset 40. *)
Example getOrders_first_and_third_page :
  map url (sent (world_of (run (getOrders (always versioned_page)
                                  QueryString.stringify keep_json
                                  ORDERBOOK_VERSION anonymous_api [] 1))))
  = ["https://api.opensea.io/wyvern/v1/orders?limit=20&offset=0"]
  /\ map url (sent (world_of (run (getOrders (always versioned_page)
                                     QueryString.stringify keep_json
                                     ORDERBOOK_VERSION anonymous_api [] 3))))
     = ["https://api.opensea.io/wyvern/v1/orders?limit=20&offset=40"].
Proof. split; reflexivity. Qed.

(** The empty pages of both schemas give [null]. *)
Lemma getOrder_null_on_zero_matches_witness :
  result_of (run (getOrder (always legacy_empty_page) QueryString.stringify
                    keep_json 0 anonymous_api []))
  = Return None
  /\ result_of (run (getOrder (always versioned_empty_page)
                       QueryString.stringify keep_json ORDERBOOK_VERSION
                       anonymous_api []))
     = Return None.
Proof.
  split.
  - destruct (getOrder_null_on_zero_matches (always legacy_empty_page)
                QueryString.stringify value keep_json 0 anonymous_api []
                empty_world legacy_empty_page _ eq_refl eq_refl eq_refl)
      as [L _].
    apply L; reflexivity.
  - destruct (getOrder_null_on_zero_matches (always versioned_empty_page)
                QueryString.stringify value keep_json ORDERBOOK_VERSION
                anonymous_api [] empty_world versioned_empty_page _
                eq_refl eq_refl eq_refl) as [_ V].
    apply (V ltac:(discriminate) [("orders", VArr []); ("count", VInt 0)]);
      reflexivity.
Defined.

(** C4, as stated, fails: the body [Bad Gateway] of a 502 is not JSON,
    and what the handler builds the message from is that text, not
    [undefined]; the message shows it, quoted. *)
Lemma unparseable_error_body_is_not_undefined :
  ok bad_gateway = false
  /\ (exists e, JSON.parse "Bad Gateway" = Throw e)
  /\ error_result bad_gateway = VStr "Bad Gateway"
  /\ error_result bad_gateway <> VUndefined
  /\ result_of (run (_handleApiResponse bad_gateway))
     = Throw (Error ("API Error: status code 502. Message: "
                     ++ dquote ++ "Bad Gateway" ++ dquote)).
Proof.
  split; [reflexivity|]. split; [eexists; reflexivity|].
  split; [reflexivity|]. split; [discriminate | reflexivity].
Qed.

(** The text of the 502 is kept; the unreadable body of the 500 is
    [undefined]. *)
Lemma unparseable_error_body_is_kept_as_text_witness :
  error_result bad_gateway = VStr "Bad Gateway"
  /\ error_result unreadable = VUndefined.
Proof.
  split.
  - destruct (unparseable_error_body_is_kept_as_text bad_gateway empty_world
                eq_refl) as [T _].
    exact (proj1 (T "Bad Gateway" _ eq_refl eq_refl)).
  - destruct (unparseable_error_body_is_kept_as_text unreadable empty_world
                eq_refl) as [_ U].
    exact (proj1 (U eq_refl)).
Defined.

(** C5, as stated, fails: the body [{"errors":"oops"}] of a 400 holds no
    errors list, and the handler does not raise the generic message: the
    call of [join] on the string raises a [TypeError]. *)
Lemma invalid_request_errors_not_a_list :
  (exists payload,
     Response_json invalid_oops = Return (VObj payload)
     /\ obj_get "errors" payload = Some (VStr "oops"))
  /\ result_of (run (_handleApiResponse invalid_oops))
     = Throw (TypeError "result.errors.join is not a function")
  /\ result_of (run (_handleApiResponse invalid_oops))
     <> Throw (Error ("API Error: Invalid request: " ++ body_dump invalid_oops)).
Proof.
  split; [eexists; split; reflexivity|].
  split; [reflexivity | discriminate].
Qed.

(** The two errors of the rejected order are joined; a 400 without
    [errors] gets the generic message. *)
Lemma invalid_request_message_from_errors_witness :
  result_of (run (_handleApiResponse invalid_order))
  = Throw (Error "API Error: bad salt, bad side")
  /\ result_of (run (_handleApiResponse invalid_detail))
     = Throw (Error ("API Error: Invalid request: {" ++ dquote ++ "detail"
                     ++ dquote ++ ":" ++ dquote ++ "malformed" ++ dquote ++ "}")).
Proof.
  split.
  - destruct (invalid_request_message_from_errors invalid_order empty_world
                eq_refl) as [J _].
    destruct (J _ [("errors", VArr [VStr "bad salt"; VStr "bad side"])]
                [VStr "bad salt"; VStr "bad side"] eq_refl eq_refl eq_refl)
      as [_ T].
    exact (T ["bad salt"; "bad side"] eq_refl).
  - destruct (invalid_request_message_from_errors invalid_detail empty_world
                eq_refl) as [_ G].
    apply G. intros payload H. vm_compute in H. injection H as <-. reflexivity.
Defined.

(** C6, as stated, fails: the 404 body [{"detail": "Not found."}] is
    written back without the space, so the message does not hold the raw
    body. *)
Lemma not_found_message_reserializes_body :
  exists message,
    result_of (run (_handleApiResponse not_found_detail)) = Throw (Error message)
    /\ message = "API Error: Not found. Full message was '{" ++ dquote
                 ++ "detail" ++ dquote ++ ":" ++ dquote ++ "Not found."
                 ++ dquote ++ "}'"
    /\ ~ Embeds not_found_detail_text message.
Proof.
  eexists. split; [reflexivity|]. split; [reflexivity|].
  intros H. apply contains_spec in H. vm_compute in H. discriminate.
Qed.

(** The 404 with body [{}]. *)
Lemma not_found_message_embeds_body_dump_witness :
  result_of (run (_handleApiResponse not_found))
  = Throw (Error "API Error: Not found. Full message was '{}'").
Proof.
  exact (proj1 (not_found_message_embeds_body_dump not_found empty_world eq_refl)).
Defined.

(** C7.  When the asset or the bundle is not found and the server says
    so with status 404 and body [{}], [getAsset] and [getBundle] raise the
    "Not found" error of the handler; they do not return [null], as their
    documentation has it ("return null if it isn't found"). *)
Theorem getAsset_raises_when_not_found :
  result_of (run (getAsset (always not_found) QueryString.stringify keep_json
                    ORDERBOOK_VERSION anonymous_api "0xabc" (TokenNumber (NInt 7))))
  = Throw (Error "API Error: Not found. Full message was '{}'")
  /\ result_of (run (getBundle (always not_found) QueryString.stringify
                       keep_json ORDERBOOK_VERSION anonymous_api "my-bundle"))
     = Throw (Error "API Error: Not found. Full message was '{}'")
  /\ result_of (run (getAsset (always not_found) QueryString.stringify
                       keep_json ORDERBOOK_VERSION anonymous_api "0xabc"
                       (TokenNumber (NInt 7))))
     <> Return None
  /\ result_of (run (getBundle (always not_found) QueryString.stringify
                       keep_json ORDERBOOK_VERSION anonymous_api "my-bundle"))
     <> Return None
  /\ map url (sent (world_of (run (getAsset (always not_found)
                                     QueryString.stringify keep_json
                                     ORDERBOOK_VERSION anonymous_api "0xabc"
                                     (TokenNumber (NInt 7))))))
     = ["https://api.opensea.io/api/v1/asset/0xabc/7?"].
Proof.
  split; [reflexivity|]. split; [reflexivity|].
  split; [discriminate|]. split; [discriminate | reflexivity].
Qed.

(** A success with body [null] is [null] for the caller. *)
Lemma lookups_null_on_empty_success_witness :
  result_of (run (getAsset (always nothing_found) QueryString.stringify
                    keep_json ORDERBOOK_VERSION anonymous_api "0xabc"
                    (TokenNumber (NInt 7))))
  = Return None
  /\ result_of (run (getBundle (always nothing_found) QueryString.stringify
                       keep_json ORDERBOOK_VERSION anonymous_api "my-bundle"))
     = Return None.
Proof.
  destruct (lookups_null_on_empty_success (always nothing_found)
              QueryString.stringify value value keep_json keep_json
              ORDERBOOK_VERSION anonymous_api "0xabc" (TokenNumber (NInt 7))
              "my-bundle" empty_world nothing_found eq_refl "null" VNull
              eq_refl eq_refl eq_refl) as [A B].
  split; [apply A | apply B]; reflexivity.
Defined.

(** C8, as stated, fails: with the options [{ method: 'PATCH' }], [put]
    sends a PATCH, where [post] with the method overridden to PUT sends a
    PUT. *)
Lemma put_lets_the_caller_method_win :
  map request_method
    (sent (world_of (run (put (always accepted) anonymous_api "/orders"
                            (VObj []) patch_opts))))
  = [VStr "PATCH"]
  /\ map request_method
       (sent (world_of (run (put_spec (always accepted) anonymous_api "/orders"
                               (VObj []) patch_opts))))
     = [VStr "PUT"]
  /\ run (put (always accepted) anonymous_api "/orders" (VObj []) patch_opts)
     <> run (put_spec (always accepted) anonymous_api "/orders" (VObj [])
               patch_opts).
Proof.
  split; [reflexivity|]. split; [reflexivity|].
  intros H.
  apply (f_equal (fun r => map request_method (sent (world_of r)))) in H.
  vm_compute in H. discriminate.
Qed.

(** With headers only among the options [put] is [post] with PUT; with
    a method among them the request is a PATCH. *)
Lemma put_is_post_with_PUT_as_default_witness :
  run (put (always accepted) anonymous_api "/orders" (VObj []) accept_opts)
  = run (put_spec (always accepted) anonymous_api "/orders" (VObj []) accept_opts)
  /\ exists r,
       sent (world_of (run (put (always accepted) anonymous_api "/orders"
                              (VObj []) patch_opts)))
       = [r]
       /\ request_method r = VStr "PATCH".
Proof.
  split.
  - apply (proj1 (put_is_post_with_PUT_as_default (always accepted)
                    anonymous_api "/orders" (VObj []) accept_opts empty_world)).
    reflexivity.
  - apply (proj2 (put_is_post_with_PUT_as_default (always accepted)
                    anonymous_api "/orders" (VObj []) patch_opts empty_world)).
    reflexivity.
Defined.

(** C9, as stated, fails: a client constructed without a key sends the
    header when the caller passes one among the options of [post], and a
    client constructed with the key [secret] then sends the caller's
    value, not the configured one. *)
Lemma key_header_from_the_caller :
  apiKey anonymous_api = None
  /\ map (request_header "X-API-KEY")
       (sent (world_of (run (post (always accepted) anonymous_api "/orders"
                               (VObj []) own_key_opts))))
     = [Some (VStr "mine")]
  /\ apiKey keyed_api = Some "secret"
  /\ map (request_header "X-API-KEY")
       (sent (world_of (run (post (always accepted) keyed_api "/orders"
                               (VObj []) own_key_opts))))
     = [Some (VStr "mine")].
Proof. repeat split. Qed.

(** The keyed client sends its key with a [post]; the client without a
    key sends none with a [get]. *)
Lemma key_header_iff_configured_witness :
  (exists r,
     sent (world_of (run (post (always accepted) keyed_api "/orders" (VObj [])
                            accept_opts)))
     = [r]
     /\ request_header "X-API-KEY" r = Some (VStr "secret"))
  /\ (exists r,
        sent (world_of (run (get (always accepted) QueryString.stringify
                               anonymous_api "/orders" [])))
        = [r]
        /\ request_header "X-API-KEY" r = None).
Proof.
  split.
  - apply (key_header_iff_configured (always accepted) QueryString.stringify
             {| config_networkName := None; config_apiKey := Some "secret";
                config_apiBaseUrl := None |}
             "/orders" [] (VObj []) accept_opts empty_world).
    reflexivity.
  - apply (key_header_iff_configured (always accepted) QueryString.stringify
             {| config_networkName := None; config_apiKey := None;
                config_apiBaseUrl := None |}
             "/orders" [] (VObj []) [] empty_world).
Defined.

(** C10, as stated, fails: [opts.headers] may be a list of pairs, and an
    [X-API-KEY] pair in it does not replace the configured key: the list is
    spread by index, the request carries the key [secret] of the client,
    and the caller's pair ends up under the header name [0]. *)
Lemma key_pair_does_not_override :
  prop "headers" pairs_key_opts = VArr [VArr [VStr "X-API-KEY"; VStr "mine"]]
  /\ apiKey keyed_api = Some "secret"
  /\ map (request_header "X-API-KEY")
       (sent (world_of (run (_fetch (always accepted) keyed_api "/orders"
                               pairs_key_opts))))
     = [Some (VStr "secret")]
  /\ map (request_header "0")
       (sent (world_of (run (_fetch (always accepted) keyed_api "/orders"
                               pairs_key_opts))))
     = [Some (VArr [VStr "X-API-KEY"; VStr "mine"])].
Proof. repeat split. Qed.

(** The caller's key replaces the key of the keyed client. *)
Lemma caller_key_header_overrides_configured_witness :
  exists r,
    sent (world_of (run (_fetch (always accepted) keyed_api "/orders"
                           own_key_opts)))
    = [r]
    /\ request_header "X-API-KEY" r = Some (VStr "mine").
Proof.
  destruct (caller_key_header_overrides_configured (always accepted) keyed_api
              "/orders" own_key_opts empty_world) as [r [S [_ [H _]]]].
  exists r. split; [exact S|].
  exact (H [("X-API-KEY", VStr "mine")] "X-API-KEY" eq_refl eq_refl).
Defined.

(* ===================================================================== *)
(** * Further properties of the response handler *)
(* ===================================================================== *)

Lemma map_outcome_length {A B} (f : A -> outcome B) (l : list A) (ys : list B) :
  map_outcome f l = Return ys -> List.length ys = List.length l.
Proof.
  revert ys. induction l as [|x l IH]; intros ys; simpl.
  - now intros [= <-].
  - destruct (f x); simpl; [|discriminate].
    destruct (map_outcome f l) as [zs|]; simpl; [|discriminate].
    intros [= <-]. simpl. now rewrite (IH zs).
Qed.

(** The first record the normalizer refuses decides the result. *)
Lemma map_outcome_first_failure {A B} (f : A -> outcome B)
    (good : list A) (bad : A) (rest : list A) (ys : list B) (e : exn) :
  map_outcome f good = Return ys -> f bad = Throw e ->
  map_outcome f (good ++ bad :: rest) = Throw e.
Proof.
  revert ys. induction good as [|x good IH]; intros ys G F; simpl.
  - now rewrite F.
  - simpl in G. destruct (f x); simpl in *; [|discriminate].
    destruct (map_outcome f good) as [zs|]; simpl in *; [|discriminate].
    now rewrite (IH zs).
Qed.

Section HandlerProperties.

Lemma ok_iff_2xx (response : Response) :
  ok response = true <-> 200 <= status response <= 299.
Proof. unfold ok. rewrite andb_true_iff, !Z.leb_le. tauto. Qed.

(** X1.  The handler hands a response back exactly when its status is
    between 200 and 299, both included, and then it is the response it was
    given: the body is not looked at, readable or not.  For every other
    status it raises. *)
Theorem handler_returns_exactly_on_2xx (response : Response) (w : World) :
  (200 <= status response <= 299 ->
     result_of (_handleApiResponse response w) = Return response)
  /\ (forall r, result_of (_handleApiResponse response w) = Return r ->
                200 <= status response <= 299 /\ r = response)
  /\ (~ 200 <= status response <= 299 ->
      result_of (_handleApiResponse response w) = Throw (raised response)).
Proof.
  destruct (ok response) eqn:K.
  - rewrite (handle_success _ _ K). apply ok_iff_2xx in K.
    split; [reflexivity|]. split.
    + intros r [= <-]. now split.
    + intros N. contradiction.
  - rewrite (handle_failure _ _ K).
    assert (N : ~ 200 <= status response <= 299).
    { intros H. apply ok_iff_2xx in H. congruence. }
    split; [intros H; contradiction|]. split; [discriminate | reflexivity].
Qed.

(** X2.  A failed response always ends in the client's own error, whose
    message starts with [API Error: ], except for status 400 with a truthy
    [errors] member that cannot be joined: one that is not a list, or a list
    with an element that cannot be converted to a string. *)
Theorem failed_response_raises_api_error (response : Response) (w : World) :
  ok response = false ->
  (status response = 400 ->
   forall payload,
     error_result response = VObj payload ->
     truthy (prop "errors" payload) = false
     \/ exists errors joined,
          prop "errors" payload = VArr errors
          /\ array_join ", " errors = Return joined) ->
  exists message,
    result_of (_handleApiResponse response w)
    = Throw (Error ("API Error: " ++ message)).
Proof.
  intros K H. rewrite (handle_failure _ _ K). unfold result_of, fst, raised.
  destruct (Z.eq_dec (status response) 400) as [S|S].
  - specialize (H S). rewrite S.
    destruct (error_result response) as [| |b|n|s|l|payload] eqn:R.
    1-6: destruct (error_message_embeds_dump 400 (error_result response))
           as [message [E _]];
         [intros _; apply result_errors_falsy; rewrite R; discriminate
         | rewrite R in E; rewrite E; now exists message].
    destruct (H payload eq_refl) as [F|[errors [joined [A J]]]].
    + destruct (error_message_embeds_dump 400 (VObj payload))
        as [message [E _]]; [|rewrite E; now exists message].
      intros _. apply result_errors_falsy. now intros p [= <-].
    + unfold error_message, result_errors, get_prop. simpl.
      fold (prop "errors" payload). rewrite A. simpl. rewrite J. eauto.
  - destruct (error_message_embeds_dump (status response) (error_result response))
      as [message [E _]]; [intros X; contradiction|].
    rewrite E. now exists message.
Qed.

(** X23.  For a response with status 400 whose [errors] list holds an
    object with a [toString] member of its own, after elements that can be
    converted, the handler raises the [TypeError] of the failed conversion,
    not the client's error. *)
Theorem unprintable_error_raises_TypeError
    (response : Response) (w : World) (payload : obj)
    (good : list value) (texts : list string) (hidden : obj)
    (rest : list value) :
  status response = 400 ->
  error_result response = VObj payload ->
  obj_get "errors" payload = Some (VArr (good ++ VObj hidden :: rest)) ->
  map_outcome join_element good = Return texts ->
  obj_has "toString" hidden = true ->
  result_of (_handleApiResponse response w)
  = Throw (TypeError "Cannot convert object to primitive value").
Proof.
  intros S R E G T. rewrite (handle_failure _ _ (not_ok_400 _ S)).
  unfold result_of, fst, raised. rewrite S, R, (error_message_joined _ _ E).
  unfold array_join.
  rewrite (map_outcome_first_failure join_element good (VObj hidden) rest texts
             (TypeError "Cannot convert object to primitive value") G).
  - reflexivity.
  - simpl. now rewrite T.
Qed.

(** X3.  For a response with status 400 whose body is a JSON object with
    a truthy [errors] member that is not a list (a string, a number, an
    object), what the handler raises is the [TypeError] of the failed call
    of [join], not the client's error. *)
Theorem errors_not_a_list_raises_TypeError
    (response : Response) (w : World) (payload : obj) :
  status response = 400 ->
  error_result response = VObj payload ->
  truthy (prop "errors" payload) = true ->
  (forall errors, prop "errors" payload <> VArr errors) ->
  result_of (_handleApiResponse response w)
  = Throw (TypeError "result.errors.join is not a function").
Proof.
  intros S R T N. rewrite (handle_failure _ _ (not_ok_400 _ S)).
  unfold result_of, fst, raised. rewrite S, R.
  unfold error_message, result_errors, get_prop. simpl.
  fold (prop "errors" payload). rewrite T.
  destruct (prop "errors" payload) as [| |b|n|s|l|o]; try discriminate;
    try reflexivity.
  now elim (N l).
Qed.

(** X4.  The categories of the other statuses.  401 and 403 give the same
    message, so the message does not tell them apart; 500 gives the message
    with the support contact; every failed status that is none of 400, 401,
    403, 404 and 500 gives [status code N], with the status in decimal.
    Each message ends with the dump of the decoded body. *)
Theorem status_categories (response : Response) (w : World) :
  let result := result_of (_handleApiResponse response w) in
  let dump := body_dump response in
  (status response = 401 \/ status response = 403 ->
     result = Throw (Error ("API Error: Unauthorized. Full message was '"
                            ++ dump ++ "'")))
  /\ (status response = 500 ->
      result = Throw (Error ("API Error: Internal server error. OpenSea has been alerted, but if the problem persists please contact us via Discord: https://discord.gg/ga8EJbv - full message was " ++ dump)))
  /\ (ok response = false ->
      ~ In (status response) [400; 401; 403; 404; 500] ->
      result = Throw (Error ("API Error: status code "
                             ++ string_of_Z (status response)
                             ++ ". Message: " ++ dump))).
Proof.
  intros result dump. subst result dump. split; [|split].
  - intros S.
    assert (K : ok response = false) by (unfold ok; destruct S as [-> | ->]; reflexivity).
    rewrite (handle_failure _ _ K). unfold result_of, fst, raised, error_message.
    now destruct S as [-> | ->].
  - intros S.
    assert (K : ok response = false) by (unfold ok; now rewrite S).
    rewrite (handle_failure _ _ K). unfold result_of, fst, raised, error_message.
    now rewrite S.
  - intros K N. rewrite (handle_failure _ _ K).
    unfold result_of, fst, raised, error_message.
    destruct (Z.eqb_spec (status response) 400) as [E|_];
      [elim N; rewrite E; simpl; tauto|].
    destruct (Z.eqb_spec (status response) 401) as [E|_];
      [elim N; rewrite E; simpl; tauto|].
    destruct (Z.eqb_spec (status response) 403) as [E|_];
      [elim N; rewrite E; simpl; tauto|].
    destruct (Z.eqb_spec (status response) 404) as [E|_];
      [elim N; rewrite E; simpl; tauto|].
    destruct (Z.eqb_spec (status response) 500) as [E|_];
      [elim N; rewrite E; simpl; tauto|].
    reflexivity.
Qed.

End HandlerProperties.

(* ===================================================================== *)
(** * Further properties of the transport *)
(* ===================================================================== *)

Lemma code_units_continuation (m : N) :
  (128 <= m < 192)%N -> code_units (ascii_of_N m) = 0%nat.
Proof.
  intros [L U]. unfold code_units. rewrite N_ascii_embedding by lia.
  apply N.leb_le in L. apply N.ltb_lt in U. now rewrite L, U.
Qed.

Lemma high_surrogate_is_one_unit (c b1 b2 : ascii) :
  utf16_length (high_surrogate c b1 b2) = 1%nat.
Proof.
  unfold high_surrogate. cbn [utf16_length].
  set (h := ((N_of_ascii c mod 8) * 256 + (N_of_ascii b1 mod 64) * 4
             + (N_of_ascii b2 mod 64) / 16 - 64)%N).
  change (code_units (ascii_of_N 237)) with 1%nat.
  rewrite (code_units_continuation (160 + (h / 64) mod 16)),
          (code_units_continuation (128 + h mod 64)); [reflexivity| |].
  - generalize (N.mod_lt h 64 ltac:(discriminate)).
    generalize (h mod 64)%N. intros; lia.
  - generalize (N.mod_lt (h / 64) 16 ltac:(discriminate)).
    generalize ((h / 64) mod 16)%N. intros; lia.
Qed.

(** [substr] gives at most the code units asked for. *)
Lemma substr_length_le (n : nat) (s : string) :
  (utf16_length (substr n s) <= n)%nat.
Proof.
  revert n. induction s as [|c s IH]; intros n; cbn [substr utf16_length];
    [lia|].
  destruct (Nat.leb_spec (code_units c) n) as [L|L].
  - cbn [utf16_length]. specialize (IH (n - code_units c)%nat). lia.
  - destruct n as [|[|n]]; cbn [utf16_length]; try lia.
    destruct s as [|b1 [|b2 s]]; cbn [utf16_length]; try lia.
    now rewrite high_surrogate_is_one_unit.
Qed.

(** A text that is short enough is given whole. *)
Lemma substr_short (n : nat) (s : string) :
  (utf16_length s <= n)%nat -> substr n s = s.
Proof.
  revert n. induction s as [|c s IH]; intros n H; simpl in *; [reflexivity|].
  destruct (Nat.leb_spec (code_units c) n) as [L|L]; [|lia].
  rewrite IH by lia. reflexivity.
Qed.

(** Without four-byte sequences, what [substr] gives is the beginning of
    the text. *)
Lemma substr_is_prefix (n : nat) (s : string) :
  single_units s = true -> is_prefix (substr n s) s = true.
Proof.
  revert n. induction s as [|c s IH]; intros n H; simpl in *; [reflexivity|].
  apply andb_true_iff in H as [U H]. apply Nat.leb_le in U.
  destruct (Nat.leb_spec (code_units c) n) as [L|L].
  - simpl. now rewrite Ascii.eqb_refl, IH.
  - destruct n as [|[|n]]; try reflexivity; lia.
Qed.

(** A named option as [post] passes it on: the caller's when there is
    one, else one of the three [post] sets. *)
Lemma post_fetchOpts_named (body : value) (opts : obj) (k : string) :
  array_index k = None ->
  obj_get k (post_fetchOpts body opts)
  = match obj_get k opts with
    | Some mine => Some mine
    | None => obj_get k (post_fetchOpts body [])
    end.
Proof.
  intros K. unfold post_fetchOpts. rewrite obj_get_assign. simpl spread_props.
  now rewrite obj_get_own_props.
Qed.


Section MoreTransportProperties.

Variable fetch : Request -> outcome Response.
Variable QueryString_stringify : obj -> string.
Variables Order OpenSeaAsset OpenSeaAssetBundle FungibleToken : Type.
Variable orderFromJSON : value -> outcome Order.
Variable assetFromJSON : value -> outcome OpenSeaAsset.
Variable assetBundleFromJSON : value -> outcome OpenSeaAssetBundle.
Variable tokenFromJSON : value -> outcome FungibleToken.

Lemma postOrder_sent (version : Z) (api : OpenSeaAPI) (order : obj) (w : World) :
  sent (world_of (postOrder fetch orderFromJSON version api order w))
  = (sent w ++ [fetch_request api (ORDERBOOK_PATH version ++ "/orders/post")
                  (post_fetchOpts (VObj order) [])])%list.
Proof.
  unfold postOrder. rewrite world_of_bind_quiet.
  - unfold post. apply _fetch_sent.
  - intros response. auto 20 with quiet.
Qed.


(** When the network fails, [_fetch] stops right after the request. *)
Lemma fetch_passes_failure (api : OpenSeaAPI) (apiPath : string) (opts : obj)
    (w : World) :
  passes_failure_on fetch (fetch_request api apiPath opts) w
    (_fetch fetch api apiPath opts w).
Proof.
  intros e F. unfold rejected_with. rewrite _fetch_run, F. now split.
Qed.

Lemma bind_passes_failure {A B} (m : M A) (k : A -> M B) (r : Request)
    (w : World) :
  passes_failure_on fetch r w (m w) ->
  passes_failure_on fetch r w (bind m k w).
Proof.
  intros H e F. destruct (H e F) as [R W]. unfold rejected_with, bind.
  destruct (m w) as [[a|e'] w']; simpl in *; [discriminate|].
  injection R as ->. now split.
Qed.

(** X6.  A failure of the network (a rejected [fetch]) comes out of every
    operation as the very exception [fetch] gave, unwrapped, and the
    handler is never reached: the sending line is the only one logged. *)
Theorem network_failure_is_passed_on
    (version : Z) (api : OpenSeaAPI) (query : obj) (page : Z)
    (tokenAddress : string) (tokenId : token_id) (slug : string)
    (order : obj) (apiPath : string) (body : value) (opts : obj) (w : World) :
  let orders_path := ORDERBOOK_PATH version ++ "/orders" in
  let paged := paged_query api query page in
  let read := get_request QueryString_stringify api in
  passes_failure_on fetch (read orders_path query) w
    (getOrder fetch QueryString_stringify orderFromJSON version api query w)
  /\ passes_failure_on fetch (read orders_path paged) w
       (getOrders fetch QueryString_stringify orderFromJSON version api query
          page w)
  /\ passes_failure_on fetch
       (read (API_PATH version ++ "/asset/" ++ tokenAddress ++ "/"
              ++ token_id_text tokenId) []) w
       (getAsset fetch QueryString_stringify assetFromJSON version api
          tokenAddress tokenId w)
  /\ passes_failure_on fetch (read (API_PATH version ++ "/assets/") paged) w
       (getAssets fetch QueryString_stringify assetFromJSON version api query
          page w)
  /\ passes_failure_on fetch (read (API_PATH version ++ "/tokens/") paged) w
       (getTokens fetch QueryString_stringify tokenFromJSON version api query
          page w)
  /\ passes_failure_on fetch
       (read (API_PATH version ++ "/bundle/" ++ slug ++ "/") []) w
       (getBundle fetch QueryString_stringify assetBundleFromJSON version api
          slug w)
  /\ passes_failure_on fetch (read (API_PATH version ++ "/bundles/") paged) w
       (getBundles fetch QueryString_stringify assetBundleFromJSON version api
          query page w)
  /\ passes_failure_on fetch
       (fetch_request api (ORDERBOOK_PATH version ++ "/orders/post")
          (post_fetchOpts (VObj order) [])) w
       (postOrder fetch orderFromJSON version api order w)
  /\ passes_failure_on fetch
       (fetch_request api apiPath (post_fetchOpts body opts)) w
       (post fetch api apiPath body opts w).
Proof.
  intros orders_path paged read. subst orders_path paged read.
  repeat match goal with |- _ /\ _ => split end.
  all: unfold getOrder, getOrders, getAsset, getAssets, getTokens, getBundle,
         getBundles, postOrder, get, post.
  all: try match goal with
           | |- passes_failure_on _ _ _ (bind _ _ _) =>
               apply bind_passes_failure
           end.
  all: apply fetch_passes_failure.
Qed.

(** X7.  A call whose request is answered logs two lines: the sending
    line, then the line of the handler.  The sending line shows the URL and
    the first 100 UTF-16 code units, at most, of the JSON text of the
    options, followed by three dots: the whole text when it is no longer
    than that, and a beginning of it when it holds no character outside the
    basic plane. *)
Theorem each_answered_call_logs_two_lines
    (api : OpenSeaAPI) (apiPath : string) (opts : obj) (w : World)
    (response : Response) :
  fetch (fetch_request api apiPath opts) = Return response ->
  let r := fetch_request api apiPath opts in
  let dump := template (JSON.stringify (VObj (init r))) in
  log (world_of (_fetch fetch api apiPath opts w))
  = (log w ++ [sending_line r; status_line response])%list
  /\ exists excerpt,
       sending_line r = "Sending request: " ++ url r ++ " " ++ excerpt ++ "..."
       /\ (utf16_length excerpt <= 100)%nat
       /\ ((utf16_length dump <= 100)%nat -> excerpt = dump)
       /\ (single_units dump = true -> is_prefix excerpt dump = true).
Proof.
  intros F r dump. subst r dump. split.
  - rewrite _fetch_run, F. unfold status_line.
    destruct (ok response) eqn:K.
    + rewrite (handle_success _ _ K). simpl. now rewrite <- app_assoc.
    + rewrite (handle_failure _ _ K). simpl. now rewrite <- app_assoc.
  - eexists. split; [reflexivity|]. split; [|split].
    + apply substr_length_le.
    + apply substr_short.
    + apply substr_is_prefix.
Qed.

End MoreTransportProperties.

Section PostProperties.

Variable fetch : Request -> outcome Response.
Variables Order : Type.
Variable orderFromJSON : value -> outcome Order.

(** The [headers] option as [post] passes it on: the caller's, or the two
    JSON headers. *)
Lemma post_headers_option (body : value) (opts : obj) :
  prop "headers" (post_fetchOpts body opts)
  = match obj_get "headers" opts with
    | Some mine => mine
    | None => VObj [("Accept", VStr "application/json");
                    ("Content-Type", VStr "application/json")]
    end.
Proof.
  unfold prop. rewrite post_fetchOpts_named by reflexivity.
  now destruct (obj_get "headers" opts).
Qed.

(** X8.  The one request of [postOrder] goes to the [orders/post] path under
    the orderbook prefix, with no query string; its method is POST, its
    body is the JSON text of the order, and it carries the two JSON headers,
    [Accept] and [Content-Type], beside the key header of the client. *)
Theorem postOrder_request_shape
    (version : Z) (api : OpenSeaAPI) (order : obj) (w : World) :
  exists r,
    sent (world_of (postOrder fetch orderFromJSON version api order w))
    = (sent w ++ [r])%list
    /\ url r = apiBaseUrl api ++ ORDERBOOK_PATH version ++ "/orders/post"
    /\ request_method r = VStr "POST"
    /\ (exists text, JSON.stringify (VObj order) = Some text
                     /\ request_option "body" r = VStr text)
    /\ request_header "Accept" r = Some (VStr "application/json")
    /\ request_header "Content-Type" r = Some (VStr "application/json")
    /\ request_header "X-API-KEY" r = obj_get "X-API-KEY" (key_headers api).
Proof.
  eexists. split; [apply postOrder_sent|]. split; [reflexivity|].
  split; [|split; [|split; [|split]]].
  - unfold request_method, prop.
    rewrite request_keeps_option by (reflexivity || discriminate).
    now rewrite post_fetchOpts_method.
  - eexists. split; [reflexivity|]. unfold request_option, prop.
    rewrite request_keeps_option by (reflexivity || discriminate).
    reflexivity.
  - rewrite request_header_named by reflexivity.
    unfold caller_header. now rewrite post_headers_option.
  - rewrite request_header_named by reflexivity.
    unfold caller_header. now rewrite post_headers_option.
  - rewrite request_header_named by reflexivity.
    unfold caller_header. now rewrite post_headers_option.
Qed.

(** X9.  [postOrder] returns what the normalizer makes of the JSON body of
    a successful answer, and throws when the server rejects the order: for
    a 400 with a list of errors that can be joined, the error whose message
    joins them. *)
Theorem postOrder_outcome
    (version : Z) (api : OpenSeaAPI) (order : obj) (w : World)
    (response : Response) (text : string) :
  fetch (fetch_request api (ORDERBOOK_PATH version ++ "/orders/post")
           (post_fetchOpts (VObj order) []))
  = Return response ->
  body response = Some text ->
  let result := result_of (postOrder fetch orderFromJSON version api order w) in
  (ok response = true ->
   forall json, JSON.parse text = Return json -> result = orderFromJSON json)
  /\ (status response = 400 ->
      forall payload errors joined,
        JSON.parse text = Return (VObj payload) ->
        obj_get "errors" payload = Some (VArr errors) ->
        array_join ", " errors = Return joined ->
        result = Throw (Error ("API Error: " ++ joined))).
Proof.
  intros F B result. subst result. unfold postOrder, post, result_of, bind.
  rewrite _fetch_run, F. split.
  - intros K json P. rewrite (handle_success _ _ K). unfold lift. cbn beta iota.
    rewrite (Response_json_body _ _ B), P. simpl. now destruct (orderFromJSON json).
  - intros S payload errors joined P E J.
    rewrite (handle_failure _ _ (not_ok_400 _ S)). simpl. unfold raised.
    assert (R : error_result response = VObj payload).
    { unfold error_result, Response_text. now rewrite B, P. }
    now rewrite S, R, (error_message_joined _ _ E), J.
Qed.

(** X10.  The headers a caller passes to [post] replace the two JSON
    headers, they are not merged with them: without a [headers] option the
    request carries [Accept] and [Content-Type]; with headers that are a
    plain object, it carries exactly the named headers of that object
    (beside the key header), so no [Content-Type] unless the caller names
    it; with headers that are a list of pairs, it carries no named header
    but the key header of the client: neither the two JSON headers nor the
    caller's own. *)
Theorem post_headers_are_replaced_not_merged
    (api : OpenSeaAPI) (apiPath : string) (body : value) (opts : obj)
    (w : World) :
  exists r,
    sent (world_of (post fetch api apiPath body opts w)) = (sent w ++ [r])%list
    /\ (obj_get "headers" opts = None ->
        request_header "Accept" r = Some (VStr "application/json")
        /\ request_header "Content-Type" r = Some (VStr "application/json"))
    /\ (forall headers name,
          obj_get "headers" opts = Some (VObj headers) ->
          array_index name = None -> name <> "X-API-KEY" ->
          request_header name r = obj_get name headers)
    /\ (forall pairs name,
          obj_get "headers" opts = Some (VArr pairs) ->
          all_digits name = false ->
          request_header name r = obj_get name (key_headers api)).
Proof.
  eexists. split; [unfold post; apply _fetch_sent|]. split; [|split].
  - intros H. rewrite !request_header_named by reflexivity.
    unfold caller_header. now rewrite post_headers_option, H.
  - intros headers name H K N. rewrite request_header_named by exact K.
    unfold caller_header. rewrite post_headers_option, H. simpl.
    rewrite obj_get_own_props by exact K.
    destruct (obj_get name headers); [reflexivity|].
    now apply key_headers_other.
  - intros pairs name H D.
    rewrite request_header_named by now apply no_digits_no_index.
    rewrite (caller_header_pairs _ pairs); [reflexivity | | exact D].
    now rewrite post_headers_option, H.
Qed.

(** X11.  The body of the request of [post]: the JSON text of the body
    argument when it is truthy, [undefined] when it is left out, and a
    [body] among the caller's options replaces either, as it is, without
    being stringified. *)
Theorem post_body_option
    (api : OpenSeaAPI) (apiPath : string) (body : value) (opts : obj) :
  let r := fetch_request api apiPath (post_fetchOpts body opts) in
  (obj_get "body" opts = None ->
     (truthy body = false -> request_option "body" r = VUndefined)
     /\ (forall payload, body = VObj payload ->
           exists text, JSON.stringify body = Some text
                        /\ request_option "body" r = VStr text))
  /\ (forall mine, obj_get "body" opts = Some mine ->
                   request_option "body" r = mine).
Proof.
  intros r. subst r. unfold request_option, prop.
  rewrite request_keeps_option by (reflexivity || discriminate).
  rewrite post_fetchOpts_named by reflexivity. split.
  - intros H. rewrite H. split.
    + intros T. simpl. now rewrite T.
    + intros payload ->. eexists. split; reflexivity.
  - intros mine H. now rewrite H.
Qed.

(** The options [put] hands to [post] hold the caller's named options,
    and PUT as the method when the caller names none. *)
Lemma put_opts_named (opts : obj) (k : string) :
  array_index k = None ->
  obj_get k (assign [("method", VStr "PUT")] (spread_props (VObj opts)))
  = match obj_get k opts with
    | Some mine => Some mine
    | None => if (k =? "method")%string then Some (VStr "PUT") else None
    end.
Proof.
  intros K. rewrite obj_get_assign. simpl spread_props.
  rewrite obj_get_own_props by exact K. reflexivity.
Qed.

(** X12.  The requests of [put] and of [post], for the same path, body and
    options, go to the same URL and agree on every named option but the
    method, headers included: they differ in the method alone, which is the
    caller's when the options name one, else PUT for [put] and POST for
    [post]. *)
Theorem put_differs_from_post_in_the_method_only
    (api : OpenSeaAPI) (apiPath : string) (body : value) (opts : obj)
    (w : World) :
  exists p q,
    sent (world_of (put fetch api apiPath body opts w)) = (sent w ++ [p])%list
    /\ sent (world_of (post fetch api apiPath body opts w)) = (sent w ++ [q])%list
    /\ url p = url q
    /\ (forall k, array_index k = None -> k <> "method" ->
                  request_option k p = request_option k q)
    /\ (forall name, request_header name p = request_header name q)
    /\ request_method p = match obj_get "method" opts with
                          | Some mine => mine
                          | None => VStr "PUT"
                          end
    /\ request_method q = match obj_get "method" opts with
                          | Some mine => mine
                          | None => VStr "POST"
                          end.
Proof.
  set (put_opts := assign [("method", VStr "PUT")] (spread_props (VObj opts))).
  assert (Same : forall k, array_index k = None -> k <> "method" ->
                   obj_get k (post_fetchOpts body put_opts)
                   = obj_get k (post_fetchOpts body opts)).
  { intros k K N.
    rewrite (post_fetchOpts_named body put_opts), (post_fetchOpts_named body opts)
      by exact K.
    subst put_opts. rewrite put_opts_named by exact K.
    apply String.eqb_neq in N. rewrite N. now destruct (obj_get k opts). }
  assert (Headers : request_option "headers"
                      (fetch_request api apiPath (post_fetchOpts body put_opts))
                    = request_option "headers"
                        (fetch_request api apiPath (post_fetchOpts body opts))).
  { unfold request_option, fetch_request, finalOpts. simpl init.
    rewrite !prop_set_same. unfold final_headers, prop.
    now rewrite Same by (reflexivity || discriminate). }
  exists (fetch_request api apiPath (post_fetchOpts body put_opts)),
         (fetch_request api apiPath (post_fetchOpts body opts)).
  split; [unfold put, post; apply _fetch_sent|].
  split; [unfold post; apply _fetch_sent|].
  split; [reflexivity|]. split; [|split; [|split]].
  - intros k K N. destruct (String.eqb_spec k "headers") as [->|H];
      [exact Headers|].
    unfold request_option, prop. rewrite !request_keeps_option by assumption.
    now rewrite Same.
  - intros name. unfold request_header. unfold request_option in Headers.
    now rewrite Headers.
  - unfold request_method, prop.
    rewrite request_keeps_option by (reflexivity || discriminate).
    rewrite post_fetchOpts_method. subst put_opts.
    rewrite put_opts_named by reflexivity. simpl.
    now destruct (obj_get "method" opts).
  - unfold request_method, prop.
    rewrite request_keeps_option by (reflexivity || discriminate).
    rewrite post_fetchOpts_method. now destruct (obj_get "method" opts).
Qed.

(** X13.  The base URL of every request is the one given in the
    configuration when it is a non-empty string, else the one of the
    network named there (Rinkeby, or the main network when none is named);
    the site URL follows the network alone, and the page size starts
    at 20. *)
Theorem client_urls_follow_the_configuration
    (config : OpenSeaAPIConfig) (apiPath : string) (opts : obj) :
  let api := new_OpenSeaAPI config in
  (forall base, config_apiBaseUrl config = Some base -> base <> "" ->
                url (fetch_request api apiPath opts) = base ++ apiPath)
  /\ (config_apiBaseUrl config = None \/ config_apiBaseUrl config = Some "" ->
      url (fetch_request api apiPath opts) = network_base config ++ apiPath)
  /\ hostUrl api = network_host config
  /\ pageSize api = 20.
Proof.
  intros api. subst api. unfold new_OpenSeaAPI, network_base, network_host.
  split; [|split; [|split]].
  - intros base H N. apply String.eqb_neq in N.
    destruct (config_networkName config) as [[|]|]; simpl;
      unfold or_default; now rewrite H, N.
  - intros [H|H]; destruct (config_networkName config) as [[|]|]; simpl;
      unfold or_default; now rewrite H.
  - now destruct (config_networkName config) as [[|]|].
  - now destruct (config_networkName config) as [[|]|].
Qed.

End PostProperties.

(* ===================================================================== *)
(** * Further properties of the operations *)
(* ===================================================================== *)

Section MoreOperationProperties.

Variable fetch : Request -> outcome Response.
Variable QueryString_stringify : obj -> string.
Variables Order OpenSeaAsset OpenSeaAssetBundle FungibleToken : Type.
Variable orderFromJSON : value -> outcome Order.
Variable assetFromJSON : value -> outcome OpenSeaAsset.
Variable assetBundleFromJSON : value -> outcome OpenSeaAssetBundle.
Variable tokenFromJSON : value -> outcome FungibleToken.

(** X14.  [getOrder] looks at the first order of the answer and at no
    other: the result is the normalized first order, or [null] when the
    first element is falsy, whatever follows it. *)
Theorem getOrder_takes_the_first_order
    (version : Z) (api : OpenSeaAPI) (query : obj) (w : World)
    (response : Response) (text : string) (first : value) (others : list value) :
  fetch (get_request QueryString_stringify api
           (ORDERBOOK_PATH version ++ "/orders") query)
  = Return response ->
  ok response = true ->
  body response = Some text ->
  let result :=
    result_of (getOrder fetch QueryString_stringify orderFromJSON version
                 api query w) in
  let expected :=
    if truthy first
    then obind (orderFromJSON first) (fun order => Return (Some order))
    else Return None in
  (version = 0 ->
     JSON.parse text = Return (VArr (first :: others)) -> result = expected)
  /\ (version <> 0 ->
      forall payload,
        JSON.parse text = Return (VObj payload) ->
        obj_get "orders" payload = Some (VArr (first :: others)) ->
        result = expected).
Proof.
  intros F K B result expected. subst result expected.
  unfold getOrder. decode_success F K B. split; intros V.
  - subst version. intros P. simpl (0 =? 0). cbv iota. rewrite P. reflexivity.
  - apply Z.eqb_neq in V. rewrite V. intros payload P O. rewrite P. simpl.
    rewrite O. reflexivity.
Qed.

(** X15.  Under version 0 the count [getOrders] returns is the number of
    orders it returns: whenever the call succeeds, whatever the server
    sent. *)
Theorem legacy_count_is_the_page_length
    (api : OpenSeaAPI) (query : obj) (page : Z) (w : World)
    (found : OrdersPage Order) :
  result_of (getOrders fetch QueryString_stringify orderFromJSON 0 api query
               page w)
  = Return found ->
  count found = VInt (Z.of_nat (List.length (orders found))).
Proof.
  unfold getOrders, result_of, bind, lift, ret. rewrite get_run.
  destruct (fetch _) as [response|e]; [|discriminate].
  destruct (ok response) eqn:K.
  - rewrite (handle_success _ _ K). simpl.
    destruct (Response_json response) as [json|e]; [|discriminate].
    destruct json as [| |b|n|s|records|payload]; simpl; try discriminate.
    destruct (map_outcome orderFromJSON records) as [normalized|e] eqn:N;
      simpl; [|discriminate].
    intros [= <-]. simpl. now rewrite (map_outcome_length _ _ _ N).
  - rewrite (handle_failure _ _ K). discriminate.
Qed.

(** X16.  [getOrders] returns no partial page: when the normalizer
    refuses one record of the answer, after accepting those before it, the
    call raises what the normalizer raised. *)
Theorem getOrders_returns_no_partial_page
    (version : Z) (api : OpenSeaAPI) (query : obj) (page : Z) (w : World)
    (response : Response) (text : string)
    (good : list value) (bad : value) (rest : list value)
    (normalized : list Order) (e : exn) :
  fetch (get_request QueryString_stringify api
           (ORDERBOOK_PATH version ++ "/orders") (paged_query api query page))
  = Return response ->
  ok response = true ->
  body response = Some text ->
  map_outcome orderFromJSON good = Return normalized ->
  orderFromJSON bad = Throw e ->
  let result :=
    result_of (getOrders fetch QueryString_stringify orderFromJSON version
                 api query page w) in
  (version = 0 ->
     JSON.parse text = Return (VArr (good ++ bad :: rest)) -> result = Throw e)
  /\ (version <> 0 ->
      forall payload,
        JSON.parse text = Return (VObj payload) ->
        obj_get "orders" payload = Some (VArr (good ++ bad :: rest)) ->
        result = Throw e).
Proof.
  intros F K B G X result. subst result. unfold getOrders.
  decode_success F K B.
  pose proof (map_outcome_first_failure orderFromJSON good bad rest _ e G X) as M.
  split; intros V.
  - subst version. intros P. simpl (0 =? 0). cbv iota. rewrite P. simpl.
    now rewrite M.
  - apply Z.eqb_neq in V. rewrite V. intros payload P O. rewrite P. simpl.
    rewrite O. simpl. now rewrite M.
Qed.

(** X17.  The other list operations.  [getAssets] and [getBundles] read
    the list under [assets] and [bundles] and hand the [estimated_count]
    member on as the estimated count, as it came; [getTokens] reads a bare
    array, under every version. *)
Theorem list_operations_decode
    (version : Z) (api : OpenSeaAPI) (query : obj) (page : Z) (w : World)
    (response : Response) (text : string) (records : list value) :
  ok response = true ->
  body response = Some text ->
  let paged := paged_query api query page in
  (fetch (get_request QueryString_stringify api
            (API_PATH version ++ "/assets/") paged) = Return response ->
   forall payload normalized,
     JSON.parse text = Return (VObj payload) ->
     obj_get "assets" payload = Some (VArr records) ->
     map_outcome assetFromJSON records = Return normalized ->
     result_of (getAssets fetch QueryString_stringify assetFromJSON version
                  api query page w)
     = Return {| assets := normalized;
                 assets_estimatedCount := prop "estimated_count" payload |})
  /\ (fetch (get_request QueryString_stringify api
               (API_PATH version ++ "/bundles/") paged) = Return response ->
      forall payload normalized,
        JSON.parse text = Return (VObj payload) ->
        obj_get "bundles" payload = Some (VArr records) ->
        map_outcome assetBundleFromJSON records = Return normalized ->
        result_of (getBundles fetch QueryString_stringify assetBundleFromJSON
                     version api query page w)
        = Return {| bundles := normalized;
                    bundles_estimatedCount := prop "estimated_count" payload |})
  /\ (fetch (get_request QueryString_stringify api
               (API_PATH version ++ "/tokens/") paged) = Return response ->
      forall normalized,
        JSON.parse text = Return (VArr records) ->
        map_outcome tokenFromJSON records = Return normalized ->
        result_of (getTokens fetch QueryString_stringify tokenFromJSON version
                     api query page w)
        = Return {| tokens := normalized |}).
Proof.
  intros K B paged. subst paged. split; [|split].
  - intros F payload normalized P A N. unfold getAssets.
    decode_success F K B. rewrite P. simpl. unfold prop. rewrite A. simpl.
    now rewrite N.
  - intros F payload normalized P A N. unfold getBundles.
    decode_success F K B. rewrite P. simpl. unfold prop. rewrite A. simpl.
    now rewrite N.
  - intros F normalized P N. unfold getTokens.
    decode_success F K B. rewrite P. simpl. now rewrite N.
Qed.

(** X18.  A successful answer whose body cannot be decoded (it is not
    JSON, or it cannot be read) makes every operation raise what
    [response.json()] raised: neither [null] nor the client's own error. *)
Theorem undecodable_success_body_raises
    (version : Z) (api : OpenSeaAPI) (query : obj) (page : Z)
    (tokenAddress : string) (tokenId : token_id) (slug : string)
    (order : obj) (w : World) (response : Response) (e : exn) :
  ok response = true ->
  Response_json response = Throw e ->
  let orders_path := ORDERBOOK_PATH version ++ "/orders" in
  let paged := paged_query api query page in
  let read := get_request QueryString_stringify api in
  raises_on fetch (read orders_path query) response e
    (getOrder fetch QueryString_stringify orderFromJSON version api query w)
  /\ raises_on fetch (read orders_path paged) response e
       (getOrders fetch QueryString_stringify orderFromJSON version api query
          page w)
  /\ raises_on fetch
       (read (API_PATH version ++ "/asset/" ++ tokenAddress ++ "/"
              ++ token_id_text tokenId) []) response e
       (getAsset fetch QueryString_stringify assetFromJSON version api
          tokenAddress tokenId w)
  /\ raises_on fetch (read (API_PATH version ++ "/assets/") paged) response e
       (getAssets fetch QueryString_stringify assetFromJSON version api query
          page w)
  /\ raises_on fetch (read (API_PATH version ++ "/tokens/") paged) response e
       (getTokens fetch QueryString_stringify tokenFromJSON version api query
          page w)
  /\ raises_on fetch
       (read (API_PATH version ++ "/bundle/" ++ slug ++ "/") []) response e
       (getBundle fetch QueryString_stringify assetBundleFromJSON version api
          slug w)
  /\ raises_on fetch (read (API_PATH version ++ "/bundles/") paged) response e
       (getBundles fetch QueryString_stringify assetBundleFromJSON version api
          query page w)
  /\ raises_on fetch
       (fetch_request api (ORDERBOOK_PATH version ++ "/orders/post")
          (post_fetchOpts (VObj order) [])) response e
       (postOrder fetch orderFromJSON version api order w).
Proof.
  intros K J orders_path paged read. subst orders_path paged read.
  repeat match goal with |- _ /\ _ => split end.
  all: intros F.
  all: unfold getOrder, getOrders, getAsset, getAssets, getTokens, getBundle,
         getBundles, postOrder, post, get, result_of, bind, lift.
  all: rewrite _fetch_run.
  all: unfold get_request in F; rewrite F, (handle_success _ _ K).
  all: cbn beta iota; try destruct (version =? 0); now rewrite J.
Qed.

(** X19.  Pagination leaves the caller's filters alone: every named key
    of the query other than [limit] and [offset] reaches the query object
    of the request with the value the caller gave it, and a key the caller
    did not give is not added. *)
Theorem paged_query_keeps_the_filters
    (api : OpenSeaAPI) (query : obj) (page : Z) (k : string) :
  array_index k = None -> k <> "limit" -> k <> "offset" ->
  obj_get k (paged_query api query page) = obj_get k query.
Proof.
  intros K L O. unfold paged_query. rewrite obj_get_assign. simpl obj_get.
  apply String.eqb_neq in L, O. rewrite L, O.
  now apply obj_get_spread.
Qed.

(** X20.  [getAsset] and [getBundle] return the normalized record when the
    successful answer holds a truthy JSON value, and raise what the
    normalizer raises when it refuses the record. *)
Theorem lookups_return_the_normalized_record
    (version : Z) (api : OpenSeaAPI) (tokenAddress : string)
    (tokenId : token_id) (slug : string) (w : World) (response : Response)
    (text : string) (json : value) :
  ok response = true ->
  body response = Some text ->
  JSON.parse text = Return json ->
  truthy json = true ->
  (fetch (get_request QueryString_stringify api
            (API_PATH version ++ "/asset/" ++ tokenAddress ++ "/"
             ++ token_id_text tokenId) []) = Return response ->
   result_of (getAsset fetch QueryString_stringify assetFromJSON version api
                tokenAddress tokenId w)
   = obind (assetFromJSON json) (fun asset => Return (Some asset)))
  /\ (fetch (get_request QueryString_stringify api
               (API_PATH version ++ "/bundle/" ++ slug ++ "/") [])
      = Return response ->
      result_of (getBundle fetch QueryString_stringify assetBundleFromJSON
                   version api slug w)
      = obind (assetBundleFromJSON json) (fun bundle => Return (Some bundle))).
Proof.
  intros K B P T. split; intros F.
  - unfold getAsset. decode_success F K B. rewrite P.
    unfold normalize_or_null. now rewrite T.
  - unfold getBundle. decode_success F K B. rewrite P.
    unfold normalize_or_null. now rewrite T.
Qed.

End MoreOperationProperties.

(* ===================================================================== *)
(** * The further properties at work *)
(* ===================================================================== *)

(** A 429 ends in the client's error. *)
Lemma failed_response_raises_api_error_witness :
  exists message,
    result_of (run (_handleApiResponse throttled))
    = Throw (Error ("API Error: " ++ message)).
Proof.
  apply (failed_response_raises_api_error throttled empty_world eq_refl).
  intros S. vm_compute in S. discriminate.
Defined.

(** The 400 whose one error hides [toString] ends in the [TypeError] of
    the conversion. *)
Lemma unprintable_error_raises_TypeError_witness :
  result_of (run (_handleApiResponse invalid_unprintable))
  = Throw (TypeError "Cannot convert object to primitive value").
Proof.
  exact (unprintable_error_raises_TypeError invalid_unprintable empty_world
           [("errors", VArr [VObj [("toString", VInt 1)]])]
           [] [] [("toString", VInt 1)] []
           eq_refl eq_refl eq_refl eq_refl eq_refl).
Defined.

(** A 404 makes the three lookups raise. *)
Lemma lookups_raise_on_failure_witness :
  result_of (run (getOrder (always not_found) QueryString.stringify keep_json
                    ORDERBOOK_VERSION anonymous_api []))
  = Throw (Error "API Error: Not found. Full message was '{}'").
Proof.
  exact (proj1 (lookups_raise_on_failure (always not_found)
                  QueryString.stringify value value keep_json keep_json
                  value keep_json ORDERBOOK_VERSION anonymous_api [] "0xabc"
                  (TokenNumber (NInt 7)) "my-bundle" empty_world not_found
                  eq_refl) eq_refl).
Defined.

(** A 400 whose [errors] is an object ends in the [TypeError]. *)
Lemma errors_not_a_list_raises_TypeError_witness :
  result_of (run (_handleApiResponse invalid_keyed))
  = Throw (TypeError "result.errors.join is not a function").
Proof.
  apply (errors_not_a_list_raises_TypeError invalid_keyed empty_world
           [("errors", VObj [("salt", VStr "bad")])] eq_refl eq_refl eq_refl).
  intros errors H. discriminate.
Defined.

(** The two lines of an accepted request. *)
Lemma each_answered_call_logs_two_lines_witness :
  log (world_of (run (_fetch (always accepted) keyed_api "/orders" [])))
  = [sending_line (fetch_request keyed_api "/orders" []); "Got success: 200"].
Proof.
  exact (proj1 (each_answered_call_logs_two_lines (always accepted) keyed_api
                  "/orders" [] empty_world accepted eq_refl)).
Defined.

(** Sixty accented letters are sixty code units in 120 bytes: the excerpt
    holds them all. *)
Example excerpt_counts_code_units :
  String.length sixty_accents = 120%nat
  /\ utf16_length sixty_accents = 60%nat
  /\ substr 100 sixty_accents = sixty_accents.
Proof. repeat split. Qed.

(** An accepted order comes back normalized; a rejected one raises the
    joined errors. *)
Lemma postOrder_outcome_witness :
  result_of (run (postOrder (always accepted) keep_json ORDERBOOK_VERSION
                    anonymous_api order_to_post))
  = Return (VObj [])
  /\ result_of (run (postOrder (always invalid_order) keep_json
                       ORDERBOOK_VERSION anonymous_api order_to_post))
     = Throw (Error "API Error: bad salt, bad side").
Proof.
  split.
  - refine (proj1 (postOrder_outcome (always accepted) value keep_json
                     ORDERBOOK_VERSION anonymous_api order_to_post empty_world
                     accepted _ eq_refl eq_refl) eq_refl (VObj []) eq_refl).
  - refine (proj2 (postOrder_outcome (always invalid_order) value keep_json
                     ORDERBOOK_VERSION anonymous_api order_to_post empty_world
                     invalid_order _ eq_refl eq_refl) eq_refl
              [("errors", VArr [VStr "bad salt"; VStr "bad side"])]
              [VStr "bad salt"; VStr "bad side"] "bad salt, bad side"
              eq_refl eq_refl eq_refl).
Defined.

(** Of two orders the first is the one returned. *)
Lemma getOrder_takes_the_first_order_witness :
  result_of (run (getOrder (always two_orders_page) QueryString.stringify
                    keep_json ORDERBOOK_VERSION anonymous_api []))
  = Return (Some order_json).
Proof.
  refine (proj2 (getOrder_takes_the_first_order (always two_orders_page)
                   QueryString.stringify value keep_json ORDERBOOK_VERSION
                   anonymous_api [] empty_world two_orders_page _ order_json
                   [second_order_json] eq_refl eq_refl eq_refl)
            _ [("orders", VArr [order_json; second_order_json]);
               ("count", VInt 2)] eq_refl eq_refl).
  discriminate.
Defined.

(** A legacy page of two orders counts two. *)
Lemma legacy_count_is_the_page_length_witness :
  count {| orders := [order_json; second_order_json]; count := VInt 2 |}
  = VInt 2.
Proof.
  exact (legacy_count_is_the_page_length (always legacy_two_orders_page)
           QueryString.stringify value keep_json anonymous_api [] 1 empty_world
           {| orders := [order_json; second_order_json]; count := VInt 2 |}
           eq_refl).
Defined.

(** A page whose second record has no hash gives no page at all. *)
Lemma getOrders_returns_no_partial_page_witness :
  result_of (run (getOrders (always broken_page) QueryString.stringify hash_of
                    ORDERBOOK_VERSION anonymous_api [] 1))
  = Throw (Error "missing hash").
Proof.
  refine (proj2 (getOrders_returns_no_partial_page (always broken_page)
                   QueryString.stringify string hash_of ORDERBOOK_VERSION
                   anonymous_api [] 1 empty_world broken_page _ [order_json]
                   (VObj [("side", VInt 1)]) [] ["0x1"] (Error "missing hash")
                   eq_refl eq_refl eq_refl eq_refl eq_refl)
            _ [("orders", VArr [order_json; VObj [("side", VInt 1)]]);
               ("count", VInt 2)] eq_refl eq_refl).
  discriminate.
Defined.

(** A page of assets, of bundles and of tokens. *)
Lemma list_operations_decode_witness :
  result_of (run (getAssets (always assets_page) QueryString.stringify
                    keep_json ORDERBOOK_VERSION anonymous_api [] 1))
  = Return {| assets := [VObj [("token_id", VStr "1")]];
              assets_estimatedCount := VInt 12 |}
  /\ result_of (run (getBundles (always bundles_page) QueryString.stringify
                       keep_json ORDERBOOK_VERSION anonymous_api [] 1))
     = Return {| bundles := [VObj [("slug", VStr "b")]];
                 bundles_estimatedCount := VInt 3 |}
  /\ result_of (run (getTokens (always tokens_page) QueryString.stringify
                       keep_json ORDERBOOK_VERSION anonymous_api [] 1))
     = Return {| tokens := [VObj [("symbol", VStr "WETH")]] |}.
Proof.
  split; [|split].
  - refine (proj1 (list_operations_decode (always assets_page)
                     QueryString.stringify value value value keep_json
                     keep_json keep_json ORDERBOOK_VERSION anonymous_api [] 1
                     empty_world assets_page _ [VObj [("token_id", VStr "1")]]
                     eq_refl eq_refl)
              eq_refl
              [("assets", VArr [VObj [("token_id", VStr "1")]]);
               ("estimated_count", VInt 12)]
              _ eq_refl eq_refl eq_refl).
  - refine (proj1 (proj2 (list_operations_decode (always bundles_page)
                     QueryString.stringify value value value keep_json
                     keep_json keep_json ORDERBOOK_VERSION anonymous_api [] 1
                     empty_world bundles_page _ [VObj [("slug", VStr "b")]]
                     eq_refl eq_refl))
              eq_refl
              [("bundles", VArr [VObj [("slug", VStr "b")]]);
               ("estimated_count", VInt 3)]
              _ eq_refl eq_refl eq_refl).
  - refine (proj2 (proj2 (list_operations_decode (always tokens_page)
                     QueryString.stringify value value value keep_json
                     keep_json keep_json ORDERBOOK_VERSION anonymous_api [] 1
                     empty_world tokens_page _ [VObj [("symbol", VStr "WETH")]]
                     eq_refl eq_refl))
              eq_refl _ eq_refl eq_refl).
Defined.

(** A web page sent with status 200 makes [getAsset] raise the syntax
    error. *)
Lemma undecodable_success_body_raises_witness :
  result_of (run (getAsset (always html_page) QueryString.stringify keep_json
                    ORDERBOOK_VERSION anonymous_api "0xabc" (TokenNumber (NInt 7))))
  = Throw (SyntaxError "Unexpected token in JSON").
Proof.
  destruct (undecodable_success_body_raises (always html_page)
              QueryString.stringify value value value value keep_json
              keep_json keep_json keep_json ORDERBOOK_VERSION anonymous_api []
              1 "0xabc" (TokenNumber (NInt 7)) "my-bundle" order_to_post empty_world
              html_page (SyntaxError "Unexpected token in JSON")
              eq_refl eq_refl) as [_ [_ [A _]]].
  apply A. reflexivity.
Defined.

(** The owner filter goes through; the caller's limit does not. *)
Lemma paged_query_keeps_the_filters_witness :
  obj_get "owner" (paged_query anonymous_api owner_query 2)
  = Some (VStr "0xabc").
Proof.
  exact (paged_query_keeps_the_filters anonymous_api owner_query 2 "owner"
           eq_refl ltac:(discriminate) ltac:(discriminate)).
Defined.

(** An asset that is there comes back normalized. *)
Lemma lookups_return_the_normalized_record_witness :
  result_of (run (getAsset (always accepted) QueryString.stringify keep_json
                    ORDERBOOK_VERSION anonymous_api "0xabc" (TokenNumber (NInt 7))))
  = Return (Some (VObj [])).
Proof.
  refine (proj1 (lookups_return_the_normalized_record (always accepted)
                   QueryString.stringify value value keep_json keep_json
                   ORDERBOOK_VERSION anonymous_api "0xabc" (TokenNumber (NInt 7))
                   "my-bundle" empty_world accepted _ (VObj [])
                   eq_refl eq_refl eq_refl eq_refl) eq_refl).
Defined.
